(** * ngc: the delayed member initializer [__ngc_initialize__]

    A shallow embedding of [lib/optional/__ngc_factory__/__ngc_initializer__.h].

    The header is template meta-programming: what it computes at
    instantiation time (the [arguments_range] constants, the choice made by
    [std::conditional], the unrolling of [front_step], [rotate_step],
    [back_step] and [member_iterator]) becomes ordinary functions here.
    Parameter packs are lists, [size_t] constants are integers reduced
    modulo [2^64], and an instantiation with no viable overload is the
    error result [None].  The only observable effect of the header is the
    sequence of calls it makes to [__ngc_construct__]; it is recorded as a
    list of calls. *)

From Stdlib Require Import String.
From Stdlib Require Import List ZArith Bool Lia Permutation.
Import ListNotations.

Local Open Scope Z_scope.

(** ** Types *)

(** A type as the header sees it: what is left of it once references and
    cv-qualifiers are taken away, and the qualifiers themselves. *)

Inductive unqualified : Type :=
| ngc_string (chars : String.string)   (* ngc :: string <chars...> *)
| other (name : String.string).        (* any type that is not an ngc :: string *)

Inductive reference : Type :=
| no_reference
| lvalue_reference
| rvalue_reference.

Record dtype : Type := mk_dtype {
  referred : unqualified;
  is_const : bool;
  is_volatile : bool;
  ref : reference
}.

Definition plain (u : unqualified) : dtype :=
  mk_dtype u false false no_reference.

(** [std :: remove_reference] and [std :: remove_const]. *)

Definition remove_reference (t : dtype) : dtype :=
  mk_dtype (referred t) (is_const t) (is_volatile t) no_reference.

Definition remove_const (t : dtype) : dtype :=
  match ref t with
  | no_reference => mk_dtype (referred t) false (is_volatile t) no_reference
  | _ => t
  end.

(** [clean <dtype> :: ctype] *)

Definition clean (t : dtype) : dtype := remove_const (remove_reference t).

(** [std :: is_same] *)

Definition unqualified_eqb (a b : unqualified) : bool :=
  match a, b with
  | ngc_string x, ngc_string y => String.eqb x y
  | other x, other y => String.eqb x y
  | _, _ => false
  end.

Definition reference_eqb (a b : reference) : bool :=
  match a, b with
  | no_reference, no_reference => true
  | lvalue_reference, lvalue_reference => true
  | rvalue_reference, rvalue_reference => true
  | _, _ => false
  end.

Definition is_same (a b : dtype) : bool :=
  unqualified_eqb (referred a) (referred b)
  && Bool.eqb (is_const a) (is_const b)
  && Bool.eqb (is_volatile a) (is_volatile b)
  && reference_eqb (ref a) (ref b).

(** [is_string <stype> :: value]: the partial specialisation matches
    [ngc :: string <chars...>] itself and nothing else. *)

Definition is_string (t : dtype) : bool :=
  match t with
  | mk_dtype (ngc_string _) false false no_reference => true
  | _ => false
  end.

(** ** [size_t] *)

Definition size_t_modulus : Z := 2 ^ 64.

Definition size_t_add (a b : Z) : Z := (a + b) mod size_t_modulus.
Definition size_t_sub (a b : Z) : Z := (a - b) mod size_t_modulus.

(** [sizeof...(atypes)] *)

Definition sizeof {A : Type} (pack : list A) : Z :=
  Z.of_nat (length pack) mod size_t_modulus.

(** ** [arguments_range] *)

(** Modelled from the spec: [__ngc_reverse_parameter_pack__] is declared
    outside this header; the header's documentation says the iterator
    explores "the reversed parameter pack", so that its first element is
    the last of the original pack. *)

Definition __ngc_reverse_parameter_pack__ (haystack : list dtype) : list dtype :=
  rev haystack.

Definition iterator_match (ineedle ftype : dtype) : bool :=
  is_same (clean ineedle) (clean ftype).

Fixpoint iterator_found (ineedle : dtype) (ihaystack : list dtype) : bool :=
  match ihaystack with
  | [] => false
  | ftype :: ftypes =>
      iterator_match ineedle ftype || iterator_found ineedle ftypes
  end.

Definition arguments_range_found (needle : dtype) (haystack : list dtype) : bool :=
  iterator_found needle (__ngc_reverse_parameter_pack__ haystack).

(** [iterator :: string] asks [arguments_range], not [iterator], whether
    the needle was already found in the rest of the pack. *)

Definition iterator_string (ineedle ftype : dtype) (ftypes : list dtype) : bool :=
  is_string (clean ftype) && arguments_range_found ineedle ftypes.

Fixpoint iterator_completed (ineedle : dtype) (ihaystack : list dtype) : bool :=
  match ihaystack with
  | [] => false
  | ftype :: ftypes =>
      iterator_string ineedle ftype ftypes || iterator_completed ineedle ftypes
  end.

Fixpoint iterator_beg (ineedle : dtype) (ihaystack : list dtype) : Z :=
  match ihaystack with
  | [] => 0
  | ftype :: ftypes =>
      size_t_add (iterator_beg ineedle ftypes)
                 (Z.b2z (negb (iterator_found ineedle ihaystack)))
  end.

Fixpoint iterator_end (ineedle : dtype) (ihaystack : list dtype) : Z :=
  match ihaystack with
  | [] => 0
  | ftype :: ftypes =>
      size_t_add (iterator_end ineedle ftypes)
                 (Z.b2z (negb (iterator_completed ineedle ihaystack)))
  end.

Definition arguments_range_beg (needle : dtype) (haystack : list dtype) : Z :=
  iterator_beg needle (__ngc_reverse_parameter_pack__ haystack).

Definition arguments_range_end (needle : dtype) (haystack : list dtype) : Z :=
  iterator_end needle (__ngc_reverse_parameter_pack__ haystack).

(** ** Calls to [__ngc_construct__] *)

(** The header calls [__ngc_construct__] at two places: in
    [back_step <0, dummy> :: execute], reached from [parametric_initializer],
    and in [default_initializer :: execute]. *)

Inductive call_site : Type :=
| in_back_step
| in_default_initializer.

Section Initializer.

(** What an argument carries besides its type. *)
Context {value : Type}.

Record argument : Type := mk_argument {
  atype : dtype;
  forwarded : value
}.

(** A member is referred to by its position in the declaration. *)
Record call : Type := mk_call {
  site : call_site;
  member_of : nat;
  passed : list argument
}.

(** The calls made so far, or [None] when the instantiation is ill-formed. *)
Definition effect : Type := option (list call).

Definition and_then (first second : effect) : effect :=
  match first with
  | Some calls =>
      match second with
      | Some calls' => Some (calls ++ calls')
      | None => None
      end
  | None => None
  end.

(** Modelled from the spec: [__ngc_construct__] is declared outside this
    header; it is "the field's construction operation", and all that is
    kept of it is that it was called, from where, on which member and
    with which arguments. *)

Definition __ngc_construct__ (from : call_site) (member : nat)
           (arguments : list argument) : effect :=
  Some [mk_call from member arguments].

(** ** [back_step], [rotate_step], [front_step] *)

(** The [size_t] template parameter of each step is the structural
    argument.  The general template takes one argument more than the
    pack it forwards; on an empty pack it has no viable overload. *)

Fixpoint back_step (back : nat) (member : nat) (arguments : list argument)
  : effect :=
  match back with
  | O => __ngc_construct__ in_back_step member arguments
  | S back' =>
      match arguments with
      | argument :: arguments => back_step back' member arguments
      | [] => None
      end
  end.

Fixpoint rotate_step (rotate back : nat) (member : nat)
         (arguments : list argument) : effect :=
  match rotate with
  | O => back_step back member arguments
  | S rotate' =>
      match arguments with
      | argument :: arguments =>
          rotate_step rotate' back member (arguments ++ [argument])
      | [] => None
      end
  end.

Fixpoint front_step (front rotate back : nat) (member : nat)
         (arguments : list argument) : effect :=
  match front with
  | O => rotate_step rotate back member arguments
  | S front' =>
      match arguments with
      | argument :: arguments =>
          front_step front' rotate back member arguments
      | [] => None
      end
  end.

(** ** [member_initializer] *)

Definition atypes (arguments : list argument) : list dtype :=
  map atype arguments.

(** The three template arguments of [front_step] are computed in [size_t]. *)

Definition parametric_initializer (name : dtype) (member : nat)
           (arguments : list argument) : effect :=
  let range_beg := arguments_range_beg name (atypes arguments) in
  let range_end := arguments_range_end name (atypes arguments) in
  front_step (Z.to_nat (size_t_add range_beg 1))
             (Z.to_nat (size_t_sub (size_t_sub range_end range_beg) 1))
             (Z.to_nat (size_t_sub (sizeof (atypes arguments)) range_end))
             member arguments.

Definition default_initializer (name : dtype) (member : nat)
           (arguments : list argument) : effect :=
  __ngc_construct__ in_default_initializer member [].

Definition member_initializer (name : dtype) (member : nat)
           (arguments : list argument) : effect :=
  if arguments_range_found name (atypes arguments)
  then parametric_initializer name member arguments
  else default_initializer name member arguments.

(** ** Introspection *)

(** Modelled from the spec: [__ngc_member_count__] and [__ngc_member__]
    are declared outside this header.  A type is given by the names of
    its members in declaration order; [member_count(type)] is their
    number and [member_at(type, ordinal)] exists for the ordinals below
    it, its accessor [get] returning the member at that ordinal. *)

Definition __ngc_member_count__ (type : list dtype) : Z := sizeof type.

Definition __ngc_member__ (type : list dtype) (index : nat) : option dtype :=
  nth_error type index.

(** ** [member_iterator], [null_iterator], [__ngc_initialize__] *)

(** The statement shared by both specialisations of [member_iterator]:
    [member_initializer <name of member index> :: execute] on
    [get(that)] of that member and the whole pack of arguments. *)

Definition initialize_member (type : list dtype) (index : nat)
           (arguments : list argument) : effect :=
  match __ngc_member__ type index with
  | Some name => member_initializer name index arguments
  | None => None
  end.

Fixpoint member_iterator (type : list dtype) (index : nat)
         (arguments : list argument) : effect :=
  match index with
  | O => initialize_member type 0 arguments
  | S index' =>
      and_then (member_iterator type index' arguments)
               (initialize_member type index arguments)
  end.

Definition null_iterator (type : list dtype) (arguments : list argument)
  : effect :=
  Some [].

Definition __ngc_initialize__ (type : list dtype)
           (arguments : list argument) : effect :=
  if 0 <? __ngc_member_count__ type
  then member_iterator type
         (Z.to_nat (size_t_sub (__ngc_member_count__ type) 1)) arguments
  else null_iterator type arguments.

End Initializer.

Arguments argument : clear implicits.
Arguments call : clear implicits.
Arguments effect : clear implicits.

(** * Positions, in the words of the documentation *)

(** The first position of a list at which a test holds, or its length. *)
Fixpoint position {A : Type} (test : A -> bool) (l : list A) : nat :=
  match l with
  | [] => O
  | x :: l' => if test x then O else S (position test l')
  end.

(** [completed], seen from the original pack. *)
Definition arguments_range_completed (needle : dtype) (haystack : list dtype)
  : bool :=
  iterator_completed needle (__ngc_reverse_parameter_pack__ haystack).

(** A slot that the scanner takes for a string. *)
Definition is_marker (t : dtype) : bool := is_string (clean t).

(** Where the scanner stops, in the words of the header's documentation:
    "the position of the first occurrence of needle in haystack" and "the
    position of the first occurence of a string after needle", both being
    "the number of entries in the haystack" when there is none. *)

Definition first_occurrence (needle : dtype) (haystack : list dtype) : nat :=
  position (iterator_match needle) haystack.

Definition after_needle (needle : dtype) (haystack : list dtype) : list dtype :=
  skipn (S (first_occurrence needle haystack)) haystack.

Definition next_string (needle : dtype) (haystack : list dtype) : nat :=
  if existsb (iterator_match needle) haystack
  then (S (first_occurrence needle haystack)
        + position is_marker (after_needle needle haystack))%nat
  else length haystack.

(** [n] is the index from the head of the first slot of [l], among those at
    position [from] or later, that has property [P]; it is the length of
    [l] when no such slot exists. *)

Definition first_slot_from (P : dtype -> Prop) (from : nat) (l : list dtype)
           (n : nat) : Prop :=
  (forall k t, (from <= k < n)%nat -> nth_error l k = Some t -> ~ P t)
  /\ (((from <= n < length l)%nat /\ exists t, nth_error l n = Some t /\ P t)
      \/ n = length l).

(** A slot names the target when both are the same type once cleaned; a
    slot is a marker when its cleaned type is an [ngc :: string]. *)

Definition names (target slot : dtype) : Prop := clean slot = clean target.
Definition marker_slot (slot : dtype) : Prop := is_string (clean slot) = true.

(** Two types that differ at most in const and reference qualification. *)
Definition same_up_to_const_and_reference (a b : dtype) : Prop :=
  referred a = referred b /\ is_volatile a = is_volatile b.

(** The slots strictly between positions [i] and [j]. *)
Definition between {value : Type} (i j : nat)
           (arguments : list (argument value)) : list (argument value) :=
  firstn (j - i - 1) (skipn (S i) arguments).

(** The call that initialising one field comes down to. *)
Definition field_call {value : Type} (name : dtype) (member : nat)
           (arguments : list (argument value)) : call value :=
  if arguments_range_found name (atypes arguments)
  then mk_call in_back_step member
         (between (first_occurrence name (atypes arguments))
                  (next_string name (atypes arguments)) arguments)
  else mk_call in_default_initializer member [].

(** The calls for the members of [type], the first of which has ordinal
    [first], taken in declaration order. *)
Fixpoint declaration_order {value : Type} (type : list dtype) (first : nat)
         (arguments : list (argument value)) : list (call value) :=
  match type with
  | [] => []
  | name :: rest =>
      field_call name first arguments
      :: declaration_order rest (S first) arguments
  end.

(** ** Examples *)

Definition marker (chars : String.string) : dtype := plain (ngc_string chars).
Definition int : dtype := plain (other "int"%string).
Definition double : dtype := plain (other "double"%string).
Definition const_char_array : dtype :=
  mk_dtype (other "char [3]"%string) true false lvalue_reference.

(** [fields = [a, b]], [sequence = [#a, 1, "hi", #b, 42.0]]; the value of a
    slot is its position. *)
Definition example_type : list dtype := [marker "a"; marker "b"].
Definition example_arguments : list (argument nat) :=
  [mk_argument (marker "a") 0%nat; mk_argument int 1%nat;
   mk_argument const_char_array 2%nat; mk_argument (marker "b") 3%nat;
   mk_argument double 4%nat].

(** The same sequence with other const and reference qualifiers. *)
Definition example_requalified : list dtype :=
  [mk_dtype (ngc_string "a") true false lvalue_reference;
   mk_dtype (other "int"%string) false false rvalue_reference;
   mk_dtype (other "char [3]"%string) false false no_reference;
   mk_dtype (ngc_string "b") true false no_reference;
   mk_dtype (other "double"%string) true false lvalue_reference].

(** [sequence = [#a]] and [sequence = [#a, 1, #a, 2]]. *)
Definition marker_only : list (argument nat) := [mk_argument (marker "a") 0%nat].
Definition marker_twice : list (argument nat) :=
  [mk_argument (marker "a") 0%nat; mk_argument int 1%nat;
   mk_argument (marker "a") 2%nat; mk_argument int 3%nat].

(** ** Strings among the arguments *)


(** [sequence = [#a, 1, b, 2]] where [b] is an lvalue of type
    [volatile ngc :: string <'b'>]. *)
Definition volatile_string : dtype :=
  mk_dtype (ngc_string "b") false true lvalue_reference.
Definition example_volatile : list (argument nat) :=
  [mk_argument (marker "a") 0%nat;
   mk_argument (mk_dtype (other "int"%string) false false lvalue_reference)
     1%nat;
   mk_argument volatile_string 2%nat; mk_argument int 3%nat].

(** ** Rotations *)

(** A list with its first [k] elements moved behind the others. *)
Definition rotate_left {A : Type} (k : nat) (l : list A) : list A :=
  skipn k l ++ firstn k l.

(** The call of [default_initializer] for each of the first [n] members. *)
Definition default_calls {value : Type} (n : nat) : list (call value) :=
  map (fun member => mk_call in_default_initializer member []) (seq 0 n).

(** * Properties *)

(** ** Type identity *)

Lemma unqualified_eqb_eq (a b : unqualified) :
  unqualified_eqb a b = true <-> a = b.
Proof.
  destruct a as [x|x], b as [y|y]; simpl;
    try (split; [discriminate | congruence]);
    rewrite String.eqb_eq; split; congruence.
Qed.

Lemma reference_eqb_eq (a b : reference) :
  reference_eqb a b = true <-> a = b.
Proof.
  destruct a, b; simpl; split; congruence.
Qed.

Lemma is_same_eq (a b : dtype) : is_same a b = true <-> a = b.
Proof.
  destruct a as [ua ca va ra], b as [ub cb vb rb]; unfold is_same; simpl.
  rewrite !andb_true_iff, unqualified_eqb_eq, !eqb_true_iff, reference_eqb_eq.
  split.
  - intros [[[-> ->] ->] ->]; reflexivity.
  - intros H; injection H as -> -> -> ->; auto.
Qed.

Lemma clean_unfold (t : dtype) :
  clean t = mk_dtype (referred t) false (is_volatile t) no_reference.
Proof. reflexivity. Qed.

Lemma clean_eq (a b : dtype) :
  clean a = clean b <-> referred a = referred b /\ is_volatile a = is_volatile b.
Proof.
  rewrite !clean_unfold; split.
  - intros H; injection H; auto.
  - intros [-> ->]; reflexivity.
Qed.

Lemma iterator_match_eq (needle ftype : dtype) :
  iterator_match needle ftype = true <-> clean needle = clean ftype.
Proof. apply is_same_eq. Qed.

Lemma is_string_clean (t : dtype) :
  is_string (clean t) = true <->
  exists chars, referred t = ngc_string chars /\ is_volatile t = false.
Proof.
  destruct t as [[chars|name] c [|] r]; simpl; split;
    try discriminate; try (intros [x [H1 H2]]; discriminate); eauto.
Qed.

(** ** [size_t] arithmetic that does not wrap *)

Lemma size_t_add_small (a b : Z) :
  0 <= a + b < size_t_modulus -> size_t_add a b = a + b.
Proof. intros H; unfold size_t_add; apply Z.mod_small; exact H. Qed.

Lemma size_t_sub_small (a b : Z) :
  0 <= a - b < size_t_modulus -> size_t_sub a b = a - b.
Proof. intros H; unfold size_t_sub; apply Z.mod_small; exact H. Qed.

Lemma sizeof_small {A : Type} (pack : list A) :
  Z.of_nat (length pack) < size_t_modulus ->
  sizeof pack = Z.of_nat (length pack).
Proof. intros H; unfold sizeof; apply Z.mod_small; lia. Qed.

(** ** The first position of a list at which a test holds *)

Lemma position_le {A : Type} (test : A -> bool) (l : list A) :
  (position test l <= length l)%nat.
Proof.
  induction l as [|x l IH]; simpl; [lia|]. destruct (test x); lia.
Qed.

Lemma position_none {A : Type} (test : A -> bool) (l : list A) :
  existsb test l = false -> position test l = length l.
Proof.
  induction l as [|x l IH]; simpl; [reflexivity|].
  destruct (test x); simpl; [discriminate|]. intros H; rewrite IH; auto.
Qed.

Lemma position_some {A : Type} (test : A -> bool) (l : list A) :
  existsb test l = true -> (position test l < length l)%nat.
Proof.
  induction l as [|x l IH]; simpl; [discriminate|].
  destruct (test x); simpl; [lia|]. intros H; apply IH in H; lia.
Qed.

Lemma position_app {A : Type} (test : A -> bool) (l r : list A) :
  position test (l ++ r) =
  if existsb test l then position test l
  else (length l + position test r)%nat.
Proof.
  induction l as [|x l IH]; simpl; [reflexivity|].
  destruct (test x); simpl; [reflexivity|].
  rewrite IH; destruct (existsb test l); reflexivity.
Qed.

Lemma position_before {A : Type} (test : A -> bool) (l : list A) (k : nat) (x : A) :
  (k < position test l)%nat -> nth_error l k = Some x -> test x = false.
Proof.
  revert k; induction l as [|y l IH]; intros k; simpl; [lia|].
  destruct (test y) eqn:Hy; [lia|].
  destruct k as [|k]; simpl.
  - intros _ H; injection H as <-; exact Hy.
  - intros Hk; apply IH; lia.
Qed.

Lemma position_at {A : Type} (test : A -> bool) (l : list A) :
  (position test l < length l)%nat ->
  exists x, nth_error l (position test l) = Some x /\ test x = true.
Proof.
  induction l as [|y l IH]; simpl; [lia|].
  destruct (test y) eqn:Hy; simpl.
  - intros _; exists y; auto.
  - intros H; apply IH; lia.
Qed.

(** ** The scanner, one slot at a time *)

Lemma existsb_reversed {A : Type} (test : A -> bool) (l : list A) :
  existsb test (rev l) = existsb test l.
Proof.
  induction l as [|x l IH]; simpl; [reflexivity|].
  rewrite existsb_app, IH; simpl. rewrite orb_false_r; apply orb_comm.
Qed.

Lemma iterator_found_existsb (needle : dtype) (l : list dtype) :
  iterator_found needle l = existsb (iterator_match needle) l.
Proof. induction l as [|x l IH]; simpl; congruence. Qed.

Lemma arguments_range_found_existsb (needle : dtype) (haystack : list dtype) :
  arguments_range_found needle haystack
  = existsb (iterator_match needle) haystack.
Proof.
  unfold arguments_range_found, __ngc_reverse_parameter_pack__.
  rewrite iterator_found_existsb, existsb_reversed; reflexivity.
Qed.

Lemma arguments_range_found_snoc (needle x : dtype) (h : list dtype) :
  arguments_range_found needle (h ++ [x])
  = iterator_match needle x || arguments_range_found needle h.
Proof.
  unfold arguments_range_found, __ngc_reverse_parameter_pack__.
  rewrite rev_unit; reflexivity.
Qed.

Lemma arguments_range_beg_snoc (needle x : dtype) (h : list dtype) :
  arguments_range_beg needle (h ++ [x])
  = size_t_add (arguments_range_beg needle h)
      (Z.b2z (negb (arguments_range_found needle (h ++ [x])))).
Proof.
  unfold arguments_range_beg, arguments_range_found,
    __ngc_reverse_parameter_pack__.
  rewrite rev_unit; reflexivity.
Qed.

Lemma arguments_range_completed_snoc (needle x : dtype) (h : list dtype) :
  arguments_range_completed needle (h ++ [x])
  = (is_string (clean x) && arguments_range_found needle h)
    || arguments_range_completed needle h.
Proof.
  unfold arguments_range_completed, __ngc_reverse_parameter_pack__.
  rewrite rev_unit; simpl. unfold iterator_string.
  rewrite !arguments_range_found_existsb, existsb_reversed; reflexivity.
Qed.

Lemma arguments_range_end_snoc (needle x : dtype) (h : list dtype) :
  arguments_range_end needle (h ++ [x])
  = size_t_add (arguments_range_end needle h)
      (Z.b2z (negb (arguments_range_completed needle (h ++ [x])))).
Proof.
  unfold arguments_range_end, arguments_range_completed,
    __ngc_reverse_parameter_pack__.
  rewrite rev_unit; reflexivity.
Qed.

Lemma arguments_range_beg_position (needle : dtype) (h : list dtype) :
  Z.of_nat (length h) < size_t_modulus ->
  arguments_range_beg needle h = Z.of_nat (first_occurrence needle h).
Proof.
  unfold first_occurrence.
  induction h as [|x h IH] using rev_ind; [reflexivity|].
  rewrite length_app; simpl; intros Hlen.
  rewrite arguments_range_beg_snoc, arguments_range_found_snoc, IH by lia.
  rewrite arguments_range_found_existsb, position_app.
  pose proof (position_le (iterator_match needle) h) as Hle.
  destruct (existsb (iterator_match needle) h) eqn:Hf.
  - rewrite orb_true_r; simpl. rewrite size_t_add_small; lia.
  - rewrite orb_false_r. rewrite (position_none _ _ Hf) in *.
    simpl; destruct (iterator_match needle x); simpl;
      rewrite size_t_add_small; lia.
Qed.

Lemma after_needle_snoc (needle x : dtype) (h : list dtype) :
  existsb (iterator_match needle) h = true ->
  after_needle needle (h ++ [x]) = after_needle needle h ++ [x].
Proof.
  intros Hf; unfold after_needle, first_occurrence.
  rewrite position_app, Hf.
  pose proof (position_some _ _ Hf) as Hlt.
  rewrite skipn_app.
  replace (S (position (iterator_match needle) h) - length h)%nat with O by lia.
  reflexivity.
Qed.

Lemma arguments_range_completed_existsb (needle : dtype) (h : list dtype) :
  arguments_range_completed needle h
  = existsb (iterator_match needle) h
    && existsb is_marker (after_needle needle h).
Proof.
  induction h as [|x h IH] using rev_ind; [reflexivity|].
  rewrite arguments_range_completed_snoc, IH, arguments_range_found_existsb.
  fold (is_marker x).
  rewrite existsb_app; cbn [existsb]; rewrite orb_false_r.
  destruct (existsb (iterator_match needle) h) eqn:Hf.
  - rewrite after_needle_snoc by exact Hf.
    rewrite existsb_app; cbn [existsb].
    destruct (is_marker x), (existsb is_marker (after_needle needle h));
      reflexivity.
  - rewrite andb_false_r; cbn [orb andb].
    destruct (iterator_match needle x); [|reflexivity].
    unfold after_needle, first_occurrence.
    rewrite position_app, Hf; cbn [position].
    rewrite skipn_all2; [reflexivity|]. rewrite length_app; simpl; lia.
Qed.

Lemma after_needle_length (needle : dtype) (h : list dtype) :
  existsb (iterator_match needle) h = true ->
  (S (first_occurrence needle h) + length (after_needle needle h))%nat
  = length h.
Proof.
  intros Hf; unfold after_needle; rewrite length_skipn.
  pose proof (position_some _ _ Hf); unfold first_occurrence; lia.
Qed.

Lemma next_string_le (needle : dtype) (h : list dtype) :
  (next_string needle h <= length h)%nat.
Proof.
  unfold next_string.
  destruct (existsb (iterator_match needle) h) eqn:Hf; [|lia].
  pose proof (after_needle_length _ _ Hf).
  pose proof (position_le is_marker (after_needle needle h)). lia.
Qed.

Lemma next_string_snoc (needle x : dtype) (h : list dtype) :
  next_string needle (h ++ [x])
  = if arguments_range_completed needle (h ++ [x])
    then next_string needle h
    else S (next_string needle h).
Proof.
  rewrite arguments_range_completed_snoc, arguments_range_completed_existsb,
    arguments_range_found_existsb.
  fold (is_marker x). unfold next_string.
  rewrite existsb_app; cbn [existsb]; rewrite orb_false_r.
  destruct (existsb (iterator_match needle) h) eqn:Hf; cbn [orb andb].
  - rewrite after_needle_snoc by exact Hf.
    pose proof (after_needle_length _ _ Hf) as Hlen.
    unfold first_occurrence at 1.
    rewrite !position_app, Hf. fold (first_occurrence needle h).
    destruct (existsb is_marker (after_needle needle h)) eqn:Hc.
    + rewrite orb_true_r; reflexivity.
    + rewrite orb_false_r, andb_true_r, (position_none _ _ Hc).
      cbn [position]. destruct (is_marker x); lia.
  - rewrite andb_false_r; cbn [orb].
    unfold first_occurrence at 1; rewrite position_app, Hf.
    destruct (iterator_match needle x) eqn:Hx; cbn [position].
    + unfold after_needle, first_occurrence.
      rewrite position_app, Hf; cbn [position]. rewrite Hx.
      rewrite skipn_all2 by (rewrite length_app; simpl; lia).
      simpl; lia.
    + rewrite length_app; simpl; lia.
Qed.

Lemma arguments_range_end_position (needle : dtype) (h : list dtype) :
  Z.of_nat (length h) < size_t_modulus ->
  arguments_range_end needle h = Z.of_nat (next_string needle h).
Proof.
  induction h as [|x h IH] using rev_ind; [reflexivity|].
  rewrite length_app; simpl; intros Hlen.
  rewrite arguments_range_end_snoc, next_string_snoc, IH by lia.
  pose proof (next_string_le needle h).
  destruct (arguments_range_completed needle (h ++ [x])); simpl;
    rewrite size_t_add_small; lia.
Qed.

(** ** What the two positions are *)

Lemma found_iff_occurs (needle : dtype) (h : list dtype) :
  existsb (iterator_match needle) h = true <->
  exists k t, nth_error h k = Some t /\ clean t = clean needle.
Proof.
  rewrite existsb_exists; split.
  - intros [t [Hin Hm]]. apply In_nth_error in Hin as [k Hk].
    apply iterator_match_eq in Hm. exists k, t; auto.
  - intros [k [t [Hk Hm]]]. exists t; split.
    + eapply nth_error_In; exact Hk.
    + apply iterator_match_eq; auto.
Qed.

Lemma first_occurrence_before (needle : dtype) (h : list dtype) (k : nat) (t : dtype) :
  (k < first_occurrence needle h)%nat -> nth_error h k = Some t ->
  clean t <> clean needle.
Proof.
  intros Hk Ht Heq.
  pose proof (position_before _ _ _ _ Hk Ht) as Hm.
  assert (iterator_match needle t = true) by (apply iterator_match_eq; auto).
  congruence.
Qed.

Lemma first_occurrence_at (needle : dtype) (h : list dtype) :
  (first_occurrence needle h < length h)%nat ->
  exists t, nth_error h (first_occurrence needle h) = Some t
            /\ clean t = clean needle.
Proof.
  intros Hlt. destruct (position_at _ _ Hlt) as [t [Ht Hm]].
  apply iterator_match_eq in Hm. exists t; auto.
Qed.

Lemma next_string_after (needle : dtype) (h : list dtype) :
  existsb (iterator_match needle) h = true ->
  (first_occurrence needle h < next_string needle h)%nat.
Proof. intros Hf; unfold next_string; rewrite Hf; lia. Qed.

Lemma next_string_none (needle : dtype) (h : list dtype) :
  existsb (iterator_match needle) h = false ->
  first_occurrence needle h = length h /\ next_string needle h = length h.
Proof.
  intros Hf; unfold next_string, first_occurrence; rewrite Hf.
  split; [apply position_none; exact Hf | reflexivity].
Qed.

Lemma next_string_between (needle : dtype) (h : list dtype) (k : nat) (t : dtype) :
  (first_occurrence needle h < k < next_string needle h)%nat ->
  nth_error h k = Some t -> is_marker t = false.
Proof.
  unfold next_string.
  destruct (existsb (iterator_match needle) h) eqn:Hf.
  - intros Hk Ht.
    apply (position_before is_marker (after_needle needle h)
             (k - S (first_occurrence needle h))); [lia|].
    unfold after_needle; rewrite nth_error_skipn.
    replace (S (first_occurrence needle h)
             + (k - S (first_occurrence needle h)))%nat with k by lia.
    exact Ht.
  - destruct (next_string_none _ _ Hf) as [-> _]; lia.
Qed.

Lemma next_string_at (needle : dtype) (h : list dtype) :
  (next_string needle h < length h)%nat ->
  exists t, nth_error h (next_string needle h) = Some t /\ is_marker t = true.
Proof.
  unfold next_string.
  destruct (existsb (iterator_match needle) h) eqn:Hf; [|lia].
  intros Hlt. pose proof (after_needle_length _ _ Hf) as Hlen.
  destruct (position_at is_marker (after_needle needle h)) as [t [Ht Hm]];
    [lia|].
  unfold after_needle in Ht at 1; rewrite nth_error_skipn in Ht.
  exists t; auto.
Qed.

Lemma next_string_first (needle : dtype) (h : list dtype) (k : nat) (t : dtype) :
  (first_occurrence needle h < k)%nat ->
  nth_error h k = Some t -> is_marker t = true ->
  (next_string needle h <= k)%nat.
Proof.
  intros Hk Ht Hm.
  destruct (Nat.le_gt_cases (next_string needle h) k) as [|Hgt]; [assumption|].
  assert (is_marker t = false) by (eapply next_string_between; eauto; lia).
  congruence.
Qed.

Lemma first_occurrence_first_slot (needle : dtype) (h : list dtype) :
  first_slot_from (names needle) 0 h (first_occurrence needle h).
Proof.
  split.
  - intros k t [_ Hk] Ht. eapply first_occurrence_before; eauto.
  - pose proof (position_le (iterator_match needle) h) as Hle.
    fold (first_occurrence needle h) in Hle.
    destruct (Nat.eq_dec (first_occurrence needle h) (length h)) as [|Hne];
      [right; assumption|].
    left; split; [lia|]. apply first_occurrence_at; lia.
Qed.

Lemma next_string_first_slot (needle : dtype) (h : list dtype) :
  first_slot_from marker_slot (S (first_occurrence needle h)) h
    (next_string needle h).
Proof.
  split.
  - intros k t Hk Ht Hm.
    assert (is_marker t = false) by (eapply next_string_between; eauto; lia).
    unfold marker_slot, is_marker in *; congruence.
  - pose proof (next_string_le needle h) as Hle.
    destruct (Nat.eq_dec (next_string needle h) (length h)) as [|Hne];
      [right; assumption|].
    left. destruct (existsb (iterator_match needle) h) eqn:Hf.
    + pose proof (next_string_after _ _ Hf).
      split; [lia|]. apply next_string_at; lia.
    + destruct (next_string_none _ _ Hf); lia.
Qed.

(** C1.  For every target name and every argument sequence (of a length
    that [size_t] can hold), the scan returns: [found] is true iff some
    slot names the target; [beg] is the index from the head of the first
    slot naming the target, or the length of the sequence if there is
    none; [end] is the index from the head of the first marker slot
    strictly after position [beg], or the length of the sequence if there
    is none.  On the empty sequence the result is false, 0, 0. *)
Theorem scan_result (needle : dtype) (haystack : list dtype) :
  Z.of_nat (length haystack) < size_t_modulus ->
  (arguments_range_found needle haystack = true
   <-> exists k slot, nth_error haystack k = Some slot /\ names needle slot)
  /\ (exists i j : nat,
        arguments_range_beg needle haystack = Z.of_nat i
        /\ arguments_range_end needle haystack = Z.of_nat j
        /\ first_slot_from (names needle) 0 haystack i
        /\ first_slot_from marker_slot (S i) haystack j)
  /\ (haystack = [] ->
      arguments_range_found needle haystack = false
      /\ arguments_range_beg needle haystack = 0
      /\ arguments_range_end needle haystack = 0).
Proof.
  intros Hlen. split; [|split].
  - rewrite arguments_range_found_existsb. apply found_iff_occurs.
  - exists (first_occurrence needle haystack), (next_string needle haystack).
    split; [apply arguments_range_beg_position; exact Hlen|].
    split; [apply arguments_range_end_position; exact Hlen|].
    split; [apply first_occurrence_first_slot | apply next_string_first_slot].
  - intros ->; repeat split.
Qed.

(** ** The slicer *)

Section Slicer.

Context {value : Type}.
Implicit Types (arguments : list (argument value)) (member : nat).

Lemma back_step_drops (back : nat) member arguments :
  (back <= length arguments)%nat ->
  back_step back member arguments
  = Some [mk_call in_back_step member (skipn back arguments)].
Proof.
  revert arguments; induction back as [|back IH]; intros arguments Hle.
  - reflexivity.
  - destruct arguments as [|a arguments]; simpl in *; [lia|].
    apply IH; lia.
Qed.

Lemma back_step_short (back : nat) member arguments :
  (length arguments < back)%nat -> back_step back member arguments = None.
Proof.
  revert arguments; induction back as [|back IH]; intros arguments Hlt.
  - lia.
  - destruct arguments as [|a arguments]; simpl in *; [reflexivity|].
    apply IH; lia.
Qed.

Lemma rotate_step_rotates (rotate back : nat) member arguments :
  (rotate <= length arguments)%nat ->
  rotate_step rotate back member arguments
  = back_step back member (skipn rotate arguments ++ firstn rotate arguments).
Proof.
  revert arguments; induction rotate as [|rotate IH]; intros arguments Hle.
  - simpl. rewrite app_nil_r; reflexivity.
  - destruct arguments as [|a arguments]; simpl in *; [lia|].
    rewrite IH by (rewrite length_app; simpl; lia).
    rewrite skipn_app, firstn_app.
    replace (rotate - length arguments)%nat with O by lia.
    simpl. rewrite app_nil_r, <- app_assoc. reflexivity.
Qed.

Lemma front_step_drops (front rotate back : nat) member arguments :
  (front <= length arguments)%nat ->
  front_step front rotate back member arguments
  = rotate_step rotate back member (skipn front arguments).
Proof.
  revert arguments; induction front as [|front IH]; intros arguments Hle.
  - reflexivity.
  - destruct arguments as [|a arguments]; simpl in *; [lia|].
    apply IH; lia.
Qed.

Lemma front_step_short (front rotate back : nat) member arguments :
  (length arguments < front)%nat ->
  front_step front rotate back member arguments = None.
Proof.
  revert arguments; induction front as [|front IH]; intros arguments Hlt.
  - lia.
  - destruct arguments as [|a arguments]; simpl in *; [reflexivity|].
    apply IH; lia.
Qed.

Lemma slice_between (i j : nat) member arguments :
  (i < j <= length arguments)%nat ->
  front_step (S i) (j - i - 1) (length arguments - j) member arguments
  = Some [mk_call in_back_step member (between i j arguments)].
Proof.
  intros Hij.
  rewrite front_step_drops by lia.
  rewrite rotate_step_rotates by (rewrite length_skipn; lia).
  rewrite back_step_drops
    by (rewrite length_app, length_skipn, length_skipn; lia).
  rewrite skipn_app, length_skipn, length_skipn.
  rewrite skipn_all2 by (rewrite !length_skipn; lia).
  replace (length arguments - j - (length arguments - S i - (j - i - 1)))%nat
    with O by lia.
  reflexivity.
Qed.

Lemma between_length (i j : nat) arguments :
  (i < j <= length arguments)%nat ->
  length (between i j arguments) = (j - i - 1)%nat.
Proof.
  intros Hij; unfold between. rewrite length_firstn, length_skipn; lia.
Qed.

Lemma between_nth (i j k : nat) arguments :
  (k < j - i - 1)%nat ->
  nth_error (between i j arguments) k = nth_error arguments (S i + k).
Proof.
  intros Hk; unfold between. rewrite nth_error_firstn.
  destruct (Nat.ltb_spec k (j - i - 1)); [|lia].
  apply nth_error_skipn.
Qed.

(** The three template arguments of [front_step] when the needle is found. *)
Lemma range_counts (name : dtype) arguments :
  Z.of_nat (length arguments) < size_t_modulus ->
  arguments_range_found name (atypes arguments) = true ->
  let i := first_occurrence name (atypes arguments) in
  let j := next_string name (atypes arguments) in
  (i < j <= length arguments)%nat
  /\ Z.to_nat (size_t_add (arguments_range_beg name (atypes arguments)) 1)
     = S i
  /\ Z.to_nat (size_t_sub (size_t_sub
                 (arguments_range_end name (atypes arguments))
                 (arguments_range_beg name (atypes arguments))) 1)
     = (j - i - 1)%nat
  /\ Z.to_nat (size_t_sub (sizeof (atypes arguments))
                 (arguments_range_end name (atypes arguments)))
     = (length arguments - j)%nat.
Proof.
  intros Hlen Hfound i j.
  assert (Hlen' : Z.of_nat (length (atypes arguments)) < size_t_modulus)
    by (unfold atypes; rewrite length_map; exact Hlen).
  rewrite arguments_range_found_existsb in Hfound.
  pose proof (next_string_after _ _ Hfound) as Hij.
  pose proof (next_string_le name (atypes arguments)) as Hj.
  fold i j in Hij, Hj.
  rewrite arguments_range_beg_position, arguments_range_end_position,
    sizeof_small by exact Hlen'.
  fold i j. unfold atypes in Hj |- *; rewrite length_map in Hj |- *.
  split; [lia|].
  rewrite size_t_add_small by lia.
  rewrite (size_t_sub_small (Z.of_nat j)) by lia.
  rewrite !size_t_sub_small by lia.
  lia.
Qed.

Lemma parametric_initializer_between (name : dtype) member arguments :
  Z.of_nat (length arguments) < size_t_modulus ->
  arguments_range_found name (atypes arguments) = true ->
  parametric_initializer name member arguments
  = Some [mk_call in_back_step member
            (between (first_occurrence name (atypes arguments))
                     (next_string name (atypes arguments)) arguments)].
Proof.
  intros Hlen Hfound.
  destruct (range_counts name arguments Hlen Hfound) as [Hij [Hf [Hr Hb]]].
  unfold parametric_initializer. rewrite Hf, Hr, Hb.
  apply slice_between; exact Hij.
Qed.

End Slicer.

Section Bundle.

Context {value : Type}.
Implicit Types (arguments : list (argument value)) (member : nat).

Lemma between_split (i j : nat) arguments :
  (i < j <= length arguments)%nat ->
  arguments
  = firstn (S i) arguments ++ between i j arguments ++ skipn j arguments.
Proof.
  intros Hij. unfold between.
  rewrite <- (firstn_skipn (S i) arguments) at 1. f_equal.
  rewrite <- (firstn_skipn (j - i - 1) (skipn (S i) arguments)) at 1.
  f_equal. rewrite skipn_skipn. f_equal; lia.
Qed.

Lemma between_value_slots (name : dtype) arguments (a : argument value) :
  In a (between (first_occurrence name (atypes arguments))
                (next_string name (atypes arguments)) arguments) ->
  is_string (clean (atype a)) = false.
Proof.
  set (i := first_occurrence name (atypes arguments)).
  set (j := next_string name (atypes arguments)).
  intros Hin. apply In_nth_error in Hin as [k Hk].
  assert (Hlt : (k < j - i - 1)%nat).
  { assert (Hsome : nth_error (between i j arguments) k <> None)
      by congruence.
    apply nth_error_Some in Hsome.
    unfold between in Hsome; rewrite length_firstn in Hsome; lia. }
  rewrite between_nth in Hk by exact Hlt.
  apply (next_string_between name (atypes arguments) (S i + k)).
  - fold i j; lia.
  - unfold atypes; rewrite nth_error_map, Hk; reflexivity.
Qed.

(** C2.  When the field's marker is found at position [beg], the next
    marker (or the end of the sequence) being at position [end], the
    arguments passed to the field's parametric construction are exactly
    the slots strictly between [beg] and [end], in the original order
    and each once: the sequence is the slots up to and including [beg],
    then the bundle, then the slots from [end] on; and the bundle holds
    value slots only. *)
Theorem bundle_exactness (name : dtype) member arguments :
  Z.of_nat (length arguments) < size_t_modulus ->
  arguments_range_found name (atypes arguments) = true ->
  exists (i j : nat) (front bundle back : list (argument value)),
    arguments_range_beg name (atypes arguments) = Z.of_nat i
    /\ arguments_range_end name (atypes arguments) = Z.of_nat j
    /\ (i < j <= length arguments)%nat
    /\ member_initializer name member arguments
       = parametric_initializer name member arguments
    /\ parametric_initializer name member arguments
       = Some [mk_call in_back_step member bundle]
    /\ arguments = front ++ bundle ++ back
    /\ length front = S i
    /\ length (front ++ bundle) = j
    /\ (forall k, (k < j - i - 1)%nat ->
                  nth_error bundle k = nth_error arguments (i + 1 + k))
    /\ (forall a, In a bundle -> is_string (clean (atype a)) = false).
Proof.
  intros Hlen Hfound.
  assert (Hlen' : Z.of_nat (length (atypes arguments)) < size_t_modulus)
    by (unfold atypes; rewrite length_map; exact Hlen).
  destruct (range_counts name arguments Hlen Hfound) as [Hij _].
  set (i := first_occurrence name (atypes arguments)) in *.
  set (j := next_string name (atypes arguments)) in *.
  exists i, j, (firstn (S i) arguments), (between i j arguments),
    (skipn j arguments).
  split; [apply arguments_range_beg_position; exact Hlen'|].
  split; [apply arguments_range_end_position; exact Hlen'|].
  split; [exact Hij|].
  split; [unfold member_initializer; rewrite Hfound; reflexivity|].
  split; [apply parametric_initializer_between; assumption|].
  split; [apply between_split; exact Hij|].
  split; [rewrite length_firstn; lia|].
  split; [rewrite length_app, length_firstn, between_length; lia|].
  split.
  - intros k Hk. rewrite between_nth by exact Hk. f_equal; lia.
  - intros a. apply between_value_slots.
Qed.

End Bundle.

(** ** One field *)

Section Field.

Context {value : Type}.
Implicit Types (arguments : list (argument value)) (member : nat).

Lemma member_initializer_field_call (name : dtype) member arguments :
  Z.of_nat (length arguments) < size_t_modulus ->
  member_initializer name member arguments
  = Some [field_call name member arguments].
Proof.
  intros Hlen. unfold member_initializer, field_call.
  destruct (arguments_range_found name (atypes arguments)) eqn:Hfound.
  - apply parametric_initializer_between; assumption.
  - reflexivity.
Qed.

Lemma field_call_member (name : dtype) member arguments :
  member_of (field_call name member arguments) = member.
Proof.
  unfold field_call.
  destruct (arguments_range_found name (atypes arguments)); reflexivity.
Qed.

Lemma not_found_iff_absent (name : dtype) arguments :
  arguments_range_found name (atypes arguments) = false
  <-> forall a, In a arguments -> ~ names name (atype a).
Proof.
  rewrite arguments_range_found_existsb. split.
  - intros Hf a Hin Hn.
    assert (Ht : existsb (iterator_match name) (atypes arguments) = true).
    { apply existsb_exists. exists (atype a). split.
      - unfold atypes; apply in_map; exact Hin.
      - apply iterator_match_eq; symmetry; exact Hn. }
    congruence.
  - intros Habs.
    destruct (existsb (iterator_match name) (atypes arguments)) eqn:Hf;
      [|reflexivity].
    apply existsb_exists in Hf as [t [Hin Hm]].
    unfold atypes in Hin; apply in_map_iff in Hin as [a [<- Hin]].
    apply iterator_match_eq in Hm. exfalso; apply (Habs a Hin).
    symmetry; exact Hm.
Qed.

(** C4.  For every field and every argument sequence, exactly one
    construction call is made for the field: when its marker is absent
    ([found] is false) it is the call of [default_initializer], with no
    argument; when [found] is true it is the call reached through
    [parametric_initializer], and no other. *)
Theorem one_construction_per_field (name : dtype) member arguments :
  Z.of_nat (length arguments) < size_t_modulus ->
  (arguments_range_found name (atypes arguments) = false
   <-> forall a, In a arguments -> ~ names name (atype a))
  /\ (arguments_range_found name (atypes arguments) = false ->
      member_initializer name member arguments
      = default_initializer name member arguments
      /\ member_initializer name member arguments
         = Some [mk_call in_default_initializer member []])
  /\ (arguments_range_found name (atypes arguments) = true ->
      member_initializer name member arguments
      = parametric_initializer name member arguments
      /\ exists bundle,
          member_initializer name member arguments
          = Some [mk_call in_back_step member bundle]).
Proof.
  intros Hlen. split; [apply not_found_iff_absent|]. split.
  - intros Hfound. unfold member_initializer; rewrite Hfound.
    split; reflexivity.
  - intros Hfound. split.
    + unfold member_initializer; rewrite Hfound; reflexivity.
    + rewrite member_initializer_field_call by exact Hlen.
      unfold field_call; rewrite Hfound. eexists; reflexivity.
Qed.

(** C5.  When the marker of a field is present and the slot right after
    its first occurrence is a marker, or there is no slot after it, then
    [end = beg + 1] and the field is constructed with no argument by the
    call reached through [parametric_initializer], not by the one of
    [default_initializer]. *)
Theorem marker_alone_is_parametric (name : dtype) member arguments :
  Z.of_nat (length arguments) < size_t_modulus ->
  arguments_range_found name (atypes arguments) = true ->
  (let next := S (Z.to_nat (arguments_range_beg name (atypes arguments))) in
   nth_error arguments next = None
   \/ exists a, nth_error arguments next = Some a /\ marker_slot (atype a)) ->
  arguments_range_end name (atypes arguments)
  = arguments_range_beg name (atypes arguments) + 1
  /\ member_initializer name member arguments
     = parametric_initializer name member arguments
  /\ member_initializer name member arguments
     = Some [mk_call in_back_step member []].
Proof.
  intros Hlen Hfound.
  assert (Hlen' : Z.of_nat (length (atypes arguments)) < size_t_modulus)
    by (unfold atypes; rewrite length_map; exact Hlen).
  destruct (range_counts name arguments Hlen Hfound) as [Hij _].
  rewrite arguments_range_beg_position, arguments_range_end_position
    by exact Hlen'.
  set (i := first_occurrence name (atypes arguments)) in *.
  set (j := next_string name (atypes arguments)) in *.
  rewrite Nat2Z.id. cbv zeta. intros Hnext.
  assert (Hj : j = S i).
  { destruct Hnext as [Hnone | [a [Ha Hm]]].
    - apply nth_error_None in Hnone. lia.
    - assert (j <= S i)%nat; [|lia].
      apply (next_string_first name (atypes arguments) (S i) (atype a)).
      + fold i; lia.
      + unfold atypes; rewrite nth_error_map, Ha; reflexivity.
      + exact Hm. }
  split; [lia|]. split.
  - unfold member_initializer; rewrite Hfound; reflexivity.
  - rewrite member_initializer_field_call by exact Hlen.
    unfold field_call; rewrite Hfound. fold i j. rewrite Hj.
    unfold between. replace (S i - i - 1)%nat with O by lia. reflexivity.
Qed.

End Field.

(** ** All the fields *)

Section Orchestrator.

Context {value : Type}.
Implicit Types (arguments : list (argument value)) (type : list dtype).

Lemma declaration_order_app (l r : list dtype) (first : nat) arguments :
  declaration_order (l ++ r) first arguments
  = declaration_order l first arguments
    ++ declaration_order r (first + length l) arguments.
Proof.
  revert first; induction l as [|name l IH]; intros first; simpl.
  - rewrite Nat.add_0_r; reflexivity.
  - rewrite IH. do 3 f_equal. lia.
Qed.

Lemma declaration_order_members type (first : nat) arguments :
  map member_of (declaration_order type first arguments)
  = seq first (length type).
Proof.
  revert first; induction type as [|name type IH]; intros first; simpl.
  - reflexivity.
  - rewrite field_call_member, IH; reflexivity.
Qed.

Lemma declaration_order_nth type (first k : nat) arguments (name : dtype) :
  nth_error type k = Some name ->
  nth_error (declaration_order type first arguments) k
  = Some (field_call name (first + k) arguments).
Proof.
  revert first k; induction type as [|n type IH]; intros first k.
  - destruct k; discriminate.
  - destruct k as [|k]; simpl.
    + intros H; injection H as ->. rewrite Nat.add_0_r; reflexivity.
    + intros H. rewrite (IH (S first) k H). do 2 f_equal. lia.
Qed.

Lemma firstn_snoc {A : Type} (l : list A) (n : nat) (x : A) :
  nth_error l n = Some x -> firstn (S n) l = firstn n l ++ [x].
Proof.
  revert n; induction l as [|y l IH]; intros n.
  - destruct n; discriminate.
  - destruct n as [|n].
    + simpl; intros H; injection H as ->; reflexivity.
    + intros H. change (firstn (S (S n)) (y :: l)) with (y :: firstn (S n) l).
      rewrite (IH n H); reflexivity.
Qed.

Lemma initialize_member_field_call type (index : nat) arguments (name : dtype) :
  Z.of_nat (length arguments) < size_t_modulus ->
  nth_error type index = Some name ->
  initialize_member type index arguments
  = Some [field_call name index arguments].
Proof.
  intros Hlen Hname. unfold initialize_member, __ngc_member__.
  rewrite Hname. apply member_initializer_field_call; exact Hlen.
Qed.

Lemma member_iterator_declaration_order type (index : nat) arguments :
  Z.of_nat (length arguments) < size_t_modulus ->
  (index < length type)%nat ->
  member_iterator type index arguments
  = Some (declaration_order (firstn (S index) type) 0 arguments).
Proof.
  intros Hlen. induction index as [|index IH]; intros Hlt.
  - destruct type as [|name type]; [simpl in Hlt; lia|].
    cbn [member_iterator].
    rewrite (initialize_member_field_call (name :: type) 0 arguments name
               Hlen eq_refl).
    reflexivity.
  - destruct (nth_error type (S index)) as [name|] eqn:Hname;
      [|apply nth_error_None in Hname; lia].
    cbn [member_iterator]. rewrite IH by lia.
    rewrite (initialize_member_field_call _ _ _ _ Hlen Hname).
    rewrite (firstn_snoc _ _ _ Hname), declaration_order_app.
    cbn [and_then declaration_order].
    rewrite length_firstn. do 4 f_equal. lia.
Qed.

Lemma __ngc_initialize___declaration_order type arguments :
  Z.of_nat (length type) < size_t_modulus ->
  Z.of_nat (length arguments) < size_t_modulus ->
  __ngc_initialize__ type arguments
  = Some (declaration_order type 0 arguments).
Proof.
  intros Htype Hlen. unfold __ngc_initialize__, __ngc_member_count__.
  rewrite sizeof_small by exact Htype.
  destruct type as [|name type]; [reflexivity|].
  destruct (Z.ltb_spec 0 (Z.of_nat (length (name :: type))));
    [|cbn [length] in *; lia].
  rewrite size_t_sub_small by lia.
  rewrite member_iterator_declaration_order by (auto; cbn [length]; lia).
  replace (S (Z.to_nat (Z.of_nat (length (name :: type)) - 1)))
    with (length (name :: type)) by lia.
  rewrite firstn_all; reflexivity.
Qed.

(** C3.  For every type with at least one declared field and every
    argument sequence, [__ngc_initialize__] makes its construction calls in
    ascending declaration order, member 0 first and member N-1 last,
    whatever the order of the markers in the sequence; the call for each
    member is the one its [member_initializer] makes on the whole,
    unchanged sequence. *)
Theorem declaration_order_construction type arguments :
  (1 <= length type)%nat ->
  Z.of_nat (length type) < size_t_modulus ->
  Z.of_nat (length arguments) < size_t_modulus ->
  exists calls,
    __ngc_initialize__ type arguments = Some calls
    /\ map member_of calls = seq 0 (length type)
    /\ forall index name,
        nth_error type index = Some name ->
        exists c,
          nth_error calls index = Some c
          /\ member_initializer name index arguments = Some [c].
Proof.
  intros _ Htype Hlen. exists (declaration_order type 0 arguments).
  split; [apply __ngc_initialize___declaration_order; assumption|].
  split; [apply declaration_order_members|].
  intros index name Hname. exists (field_call name index arguments).
  split.
  - rewrite (declaration_order_nth _ 0 _ _ _ Hname); reflexivity.
  - apply member_initializer_field_call; exact Hlen.
Qed.

(** C8.  For every type whose member count is zero and every argument
    sequence, whatever markers and values it holds, [__ngc_initialize__]
    makes no construction call and is well-formed. *)
Theorem empty_object_no_op type arguments :
  __ngc_member_count__ type = 0 ->
  __ngc_initialize__ type arguments = null_iterator type arguments
  /\ __ngc_initialize__ type arguments = Some [].
Proof.
  intros Hcount. unfold __ngc_initialize__. rewrite Hcount.
  split; reflexivity.
Qed.

End Orchestrator.

(** ** The arithmetic of the slicer *)

(** What the guard on [found] is for: reached without its needle in the
    sequence, [parametric_initializer] asks [front_step] to drop one slot
    more than there are. *)
Lemma parametric_initializer_not_found {value : Type} (name : dtype)
      (member : nat) (arguments : list (argument value)) :
  Z.of_nat (length arguments) + 1 < size_t_modulus ->
  arguments_range_found name (atypes arguments) = false ->
  parametric_initializer name member arguments = None.
Proof.
  intros Hlen Hfound.
  assert (Hmap : length (atypes arguments) = length arguments)
    by (unfold atypes; apply length_map).
  rewrite arguments_range_found_existsb in Hfound.
  destruct (next_string_none _ _ Hfound) as [Hi _].
  unfold parametric_initializer.
  rewrite arguments_range_beg_position by (rewrite Hmap; lia).
  rewrite Hi, Hmap, size_t_add_small by lia.
  apply front_step_short. lia.
Qed.

(** C7.  For every target name and every argument sequence of length [L],
    [beg <= end <= L]; when [found] is true, [beg < end], so the three
    template arguments of [front_step], computed in [size_t], are
    [beg + 1], [end - beg - 1] and [L - end] without wrapping round and
    add up to [L]; and [member_initializer] is well-formed on every
    input: the slicer never runs out of arguments. *)
Theorem slice_counts_well_formed {value : Type} (name : dtype) (member : nat)
        (arguments : list (argument value)) :
  Z.of_nat (length arguments) < size_t_modulus ->
  let range_beg := arguments_range_beg name (atypes arguments) in
  let range_end := arguments_range_end name (atypes arguments) in
  let L := Z.of_nat (length arguments) in
  0 <= range_beg <= range_end /\ range_end <= L
  /\ (arguments_range_found name (atypes arguments) = true ->
      range_beg < range_end
      /\ size_t_add range_beg 1 = range_beg + 1
      /\ size_t_sub (size_t_sub range_end range_beg) 1
         = range_end - range_beg - 1
      /\ size_t_sub (sizeof (atypes arguments)) range_end = L - range_end
      /\ size_t_add range_beg 1
         + size_t_sub (size_t_sub range_end range_beg) 1
         + size_t_sub (sizeof (atypes arguments)) range_end = L)
  /\ exists c, member_initializer name member arguments = Some [c].
Proof.
  intros Hlen.
  assert (Hlen' : Z.of_nat (length (atypes arguments)) < size_t_modulus)
    by (unfold atypes; rewrite length_map; exact Hlen).
  cbv zeta.
  rewrite arguments_range_beg_position, arguments_range_end_position,
    sizeof_small by exact Hlen'.
  pose proof (next_string_le name (atypes arguments)) as Hj.
  assert (Hmap : length (atypes arguments) = length arguments)
    by (unfold atypes; apply length_map).
  rewrite Hmap in *.
  set (i := first_occurrence name (atypes arguments)) in *.
  set (j := next_string name (atypes arguments)) in *.
  assert (Hij : (i <= j)%nat).
  { destruct (existsb (iterator_match name) (atypes arguments)) eqn:Hf.
    - pose proof (next_string_after _ _ Hf). fold i j in H. lia.
    - destruct (next_string_none _ _ Hf) as [Hi Hj']. fold i in Hi.
      fold j in Hj'. lia. }
  split; [lia|]. split; [lia|]. split.
  - intros Hfound. rewrite arguments_range_found_existsb in Hfound.
    pose proof (next_string_after _ _ Hfound) as Hlt. fold i j in Hlt.
    rewrite size_t_add_small by lia.
    rewrite (size_t_sub_small (Z.of_nat j)) by lia.
    rewrite !size_t_sub_small by lia.
    lia.
  - eexists. apply member_initializer_field_call; exact Hlen.
Qed.

(** ** Marker identity *)

Lemma existsb_map {A B : Type} (f : A -> B) (test : B -> bool) (l : list A) :
  existsb test (map f l) = existsb (fun x => test (f x)) l.
Proof.
  induction l as [|x l IH]; simpl; [reflexivity|]. rewrite IH; reflexivity.
Qed.

Lemma arguments_range_found_clean (needle : dtype) (h : list dtype) :
  arguments_range_found (clean needle) (map clean h)
  = arguments_range_found needle h.
Proof.
  rewrite !arguments_range_found_existsb, existsb_map. reflexivity.
Qed.

Lemma iterator_completed_clean (needle : dtype) (l : list dtype) :
  iterator_completed (clean needle) (map clean l)
  = iterator_completed needle l.
Proof.
  induction l as [|x l IH]; [reflexivity|].
  cbn [map iterator_completed]. unfold iterator_string.
  rewrite IH, arguments_range_found_clean. reflexivity.
Qed.

Lemma iterator_beg_clean (needle : dtype) (l : list dtype) :
  iterator_beg (clean needle) (map clean l) = iterator_beg needle l.
Proof.
  induction l as [|x l IH]; [reflexivity|].
  cbn [map iterator_beg]. rewrite IH.
  change (clean x :: map clean l) with (map clean (x :: l)).
  rewrite !iterator_found_existsb, existsb_map. reflexivity.
Qed.

Lemma iterator_end_clean (needle : dtype) (l : list dtype) :
  iterator_end (clean needle) (map clean l) = iterator_end needle l.
Proof.
  induction l as [|x l IH]; [reflexivity|].
  cbn [map iterator_end]. rewrite IH.
  change (clean x :: map clean l) with (map clean (x :: l)).
  rewrite iterator_completed_clean. reflexivity.
Qed.

Lemma same_up_to_clean (h h' : list dtype) :
  Forall2 same_up_to_const_and_reference h h' -> map clean h = map clean h'.
Proof.
  induction 1 as [|a b h h' Hab _ IH]; simpl; [reflexivity|].
  f_equal; [apply clean_eq; exact Hab | exact IH].
Qed.

(** C9.  Matching cleans both operands of reference and const before it
    compares them; two markers match iff they have the same characters;
    hence the whole scan result is the same for two needles, and for two
    sequences slot by slot, that differ only in const and reference
    qualification. *)
Theorem scan_ignores_const_and_reference
        (needle needle' : dtype) (haystack haystack' : list dtype) :
  same_up_to_const_and_reference needle needle' ->
  Forall2 same_up_to_const_and_reference haystack haystack' ->
  (forall a b, iterator_match a b = is_same (clean a) (clean b))
  /\ (forall a b, iterator_match a b = true <-> clean a = clean b)
  /\ (forall x y c c' r r',
         iterator_match (mk_dtype (ngc_string x) c false r)
                        (mk_dtype (ngc_string y) c' false r') = true
         <-> x = y)
  /\ arguments_range_found needle haystack
     = arguments_range_found needle' haystack'
  /\ arguments_range_beg needle haystack
     = arguments_range_beg needle' haystack'
  /\ arguments_range_end needle haystack
     = arguments_range_end needle' haystack'.
Proof.
  intros Hneedle Hhaystack.
  apply clean_eq in Hneedle. apply same_up_to_clean in Hhaystack.
  split; [reflexivity|]. split; [apply iterator_match_eq|]. split.
  - intros x y c c' r r'. rewrite iterator_match_eq, clean_eq; simpl.
    split; [intros [H _]; congruence | intros ->; auto].
  - split; [|split].
    + rewrite <- (arguments_range_found_clean needle),
        <- (arguments_range_found_clean needle'), Hneedle, Hhaystack.
      reflexivity.
    + unfold arguments_range_beg, __ngc_reverse_parameter_pack__.
      rewrite <- (iterator_beg_clean needle),
        <- (iterator_beg_clean needle'), !map_rev, Hneedle, Hhaystack.
      reflexivity.
    + unfold arguments_range_end, __ngc_reverse_parameter_pack__.
      rewrite <- (iterator_end_clean needle),
        <- (iterator_end_clean needle'), !map_rev, Hneedle, Hhaystack.
      reflexivity.
Qed.

(** ** Several markers *)

Lemma first_slot_from_unique (P : dtype -> Prop) (from : nat) (l : list dtype)
      (n n' : nat) :
  first_slot_from P from l n -> first_slot_from P from l n' -> n = n'.
Proof.
  intros [Hbefore Hat] [Hbefore' Hat'].
  destruct Hat as [[Hn [t [Ht HP]]] | ->], Hat' as [[Hn' [t' [Ht' HP']]] | ->].
  - destruct (Nat.lt_trichotomy n n') as [Hlt | [Heq | Hgt]]; [|exact Heq|].
    + exfalso; apply (Hbefore' n t); [lia | exact Ht | exact HP].
    + exfalso; apply (Hbefore n' t'); [lia | exact Ht' | exact HP'].
  - exfalso; apply (Hbefore' n t); [lia | exact Ht | exact HP].
  - exfalso; apply (Hbefore n' t'); [lia | exact Ht' | exact HP'].
  - reflexivity.
Qed.

Lemma names_marker (name slot : dtype) :
  marker_slot name -> names name slot -> is_marker slot = true.
Proof.
  unfold marker_slot, names, is_marker. intros Hm ->; exact Hm.
Qed.

(** C6, as stated, fails: with another field's marker between the two
    occurrences, [end] is that marker and not the second occurrence. *)
Lemma second_occurrence_is_not_always_end :
  ~ (forall (needle : dtype) (haystack : list dtype) (p q : nat),
        Z.of_nat (length haystack) < size_t_modulus ->
        marker_slot needle ->
        first_slot_from (names needle) 0 haystack p ->
        first_slot_from (names needle) (S p) haystack q ->
        (q < length haystack)%nat ->
        arguments_range_beg needle haystack = Z.of_nat p
        /\ arguments_range_end needle haystack = Z.of_nat q).
Proof.
  intros claim.
  destruct (claim (marker "a")
                  [marker "a"; int; marker "b"; int; marker "a"; int]
                  0%nat 4%nat) as [_ Hend].
  - reflexivity.
  - reflexivity.
  - split; [intros k t Hk; lia|].
    left; split; [simpl; lia|]. exists (marker "a"); split; reflexivity.
  - split.
    + intros k t Hk Ht Hn.
      destruct k as [|[|[|[|k]]]]; try lia;
        simpl in Ht; injection Ht as <-; discriminate Hn.
    + left; split; [simpl; lia|]. exists (marker "a"); split; reflexivity.
  - simpl; lia.
  - vm_compute in Hend. discriminate Hend.
Qed.

(** C6, amended.  When the marker of a field occurs at more than one
    position, [p] being the first and [q] the second, the scan resolves
    [beg] to [p] and [end] to the first marker slot after [p]; that slot
    is at or before [q], and is [q] exactly when no other marker slot
    lies between the two occurrences.  The bundle of the field is the
    slots strictly between [beg] and [end]. *)
Theorem duplicate_marker_first_wins {value : Type} (name : dtype)
        (member : nat) (arguments : list (argument value)) (p q : nat) :
  Z.of_nat (length arguments) < size_t_modulus ->
  marker_slot name ->
  first_slot_from (names name) 0 (atypes arguments) p ->
  first_slot_from (names name) (S p) (atypes arguments) q ->
  (q < length arguments)%nat ->
  exists j : nat,
    arguments_range_found name (atypes arguments) = true
    /\ arguments_range_beg name (atypes arguments) = Z.of_nat p
    /\ arguments_range_end name (atypes arguments) = Z.of_nat j
    /\ (p < j <= q)%nat
    /\ first_slot_from marker_slot (S p) (atypes arguments) j
    /\ (j = q <->
        forall k t, (p < k < q)%nat ->
                    nth_error (atypes arguments) k = Some t ->
                    ~ marker_slot t)
    /\ member_initializer name member arguments
       = Some [mk_call in_back_step member (between p j arguments)].
Proof.
  intros Hlen Hmarker Hp Hq Hqlen.
  assert (Hmap : length (atypes arguments) = length arguments)
    by (unfold atypes; apply length_map).
  assert (Hlen' : Z.of_nat (length (atypes arguments)) < size_t_modulus)
    by (rewrite Hmap; exact Hlen).
  pose proof (first_slot_from_unique _ _ _ _ _ Hp
                (first_occurrence_first_slot name (atypes arguments))) as Hi.
  destruct Hq as [Hbetween [[Hq [t [Ht Hn]]] | Hq]]; [|lia].
  assert (Hfound : existsb (iterator_match name) (atypes arguments) = true).
  { apply found_iff_occurs. exists q, t; auto. }
  pose proof (next_string_after _ _ Hfound) as Hafter.
  assert (Hle : (next_string name (atypes arguments) <= q)%nat).
  { apply (next_string_first name (atypes arguments) q t);
      [lia | exact Ht | eapply names_marker; eauto]. }
  exists (next_string name (atypes arguments)).
  split; [rewrite arguments_range_found_existsb; exact Hfound|].
  split; [rewrite Hi; apply arguments_range_beg_position; exact Hlen'|].
  split; [apply arguments_range_end_position; exact Hlen'|].
  split; [lia|].
  split; [rewrite Hi; apply next_string_first_slot|].
  split.
  - split.
    + intros Hj k s Hk Hs Hm.
      assert (is_marker s = false)
        by (apply (next_string_between name (atypes arguments) k); auto; lia).
      unfold marker_slot, is_marker in *; congruence.
    + intros Hnone.
      destruct (Nat.eq_dec (next_string name (atypes arguments)) q)
        as [|Hne]; [assumption|].
      destruct (next_string_at name (atypes arguments)) as [s [Hs Hm]];
        [lia|].
      exfalso.
      apply (Hnone (next_string name (atypes arguments)) s);
        [lia | exact Hs | exact Hm].
  - rewrite member_initializer_field_call by exact Hlen.
    unfold field_call. rewrite arguments_range_found_existsb, Hfound, Hi.
    reflexivity.
Qed.

(** ** Markers are never delivered *)


Section Delivered.

Context {value : Type}.
Implicit Types (arguments : list (argument value)) (type : list dtype).








End Delivered.

(** * The theorems at work on the examples *)

(** The four ranges given in the documentation of [arguments_range]. *)

Example arguments_range_of_nothing :
  arguments_range_found (marker "a") [] = false
  /\ arguments_range_beg (marker "a") [] = 0
  /\ arguments_range_end (marker "a") [] = 0.
Proof. repeat split. Qed.

Example arguments_range_of_needle :
  arguments_range_beg (marker "a") [marker "a"] = 0
  /\ arguments_range_end (marker "a") [marker "a"] = 1.
Proof. split; reflexivity. Qed.

Example arguments_range_to_the_end :
  arguments_range_beg (marker "a") [int; marker "a"; int] = 1
  /\ arguments_range_end (marker "a") [int; marker "a"; int] = 3.
Proof. split; reflexivity. Qed.

Example arguments_range_to_next_string :
  arguments_range_beg (marker "a")
    [int; marker "a"; int; marker "b"; int; double; double] = 1
  /\ arguments_range_end (marker "a")
       [int; marker "a"; int; marker "b"; int; double; double] = 3.
Proof. split; reflexivity. Qed.

(** [fields = [a, b]], [sequence = [#a, 1, "hi", #b, 42.0]]: [a] gets
    slots 1 and 2, [b] gets slot 4. *)
Example example_calls :
  __ngc_initialize__ example_type example_arguments
  = Some [mk_call in_back_step 0
            [mk_argument int 1%nat; mk_argument const_char_array 2%nat];
          mk_call in_back_step 1 [mk_argument double 4%nat]].
Proof. reflexivity. Qed.

(** [fields = [a, b, c]], [sequence = [#c, 7]]: the order is still a, b, c. *)
Example example_out_of_order :
  __ngc_initialize__ [marker "a"; marker "b"; marker "c"]
    [mk_argument (marker "c") 0%nat; mk_argument int 1%nat]
  = Some [mk_call in_default_initializer 0 [];
          mk_call in_default_initializer 1 [];
          mk_call in_back_step 2 [mk_argument int 1%nat]].
Proof. reflexivity. Qed.

Lemma scan_result_witness :
  Z.of_nat (length (atypes example_arguments)) < size_t_modulus
  /\ ((arguments_range_found (marker "a") (atypes example_arguments) = true
       <-> exists k slot,
          nth_error (atypes example_arguments) k = Some slot
          /\ names (marker "a") slot)
      /\ (exists i j : nat,
            arguments_range_beg (marker "a") (atypes example_arguments)
            = Z.of_nat i
            /\ arguments_range_end (marker "a") (atypes example_arguments)
               = Z.of_nat j
            /\ first_slot_from (names (marker "a")) 0
                 (atypes example_arguments) i
            /\ first_slot_from marker_slot (S i)
                 (atypes example_arguments) j)
      /\ (atypes example_arguments = [] ->
          arguments_range_found (marker "a") (atypes example_arguments)
          = false
          /\ arguments_range_beg (marker "a") (atypes example_arguments) = 0
          /\ arguments_range_end (marker "a") (atypes example_arguments) = 0)).
Proof.
  split; [reflexivity | apply scan_result; reflexivity].
Defined.

Lemma bundle_exactness_witness :
  Z.of_nat (length example_arguments) < size_t_modulus
  /\ arguments_range_found (marker "a") (atypes example_arguments) = true
  /\ exists (i j : nat) (front bundle back : list (argument nat)),
      arguments_range_beg (marker "a") (atypes example_arguments)
      = Z.of_nat i
      /\ arguments_range_end (marker "a") (atypes example_arguments)
         = Z.of_nat j
      /\ (i < j <= length example_arguments)%nat
      /\ member_initializer (marker "a") 0 example_arguments
         = parametric_initializer (marker "a") 0 example_arguments
      /\ parametric_initializer (marker "a") 0 example_arguments
         = Some [mk_call in_back_step 0 bundle]
      /\ example_arguments = front ++ bundle ++ back
      /\ length front = S i
      /\ length (front ++ bundle) = j
      /\ (forall k, (k < j - i - 1)%nat ->
                    nth_error bundle k
                    = nth_error example_arguments (i + 1 + k))
      /\ (forall a, In a bundle -> is_string (clean (atype a)) = false).
Proof.
  split; [reflexivity|]. split; [reflexivity|].
  apply bundle_exactness; reflexivity.
Defined.

Lemma declaration_order_construction_witness :
  (1 <= length example_type)%nat
  /\ Z.of_nat (length example_type) < size_t_modulus
  /\ Z.of_nat (length example_arguments) < size_t_modulus
  /\ exists calls,
      __ngc_initialize__ example_type example_arguments = Some calls
      /\ map member_of calls = seq 0 (length example_type)
      /\ forall index name,
          nth_error example_type index = Some name ->
          exists c,
            nth_error calls index = Some c
            /\ member_initializer name index example_arguments = Some [c].
Proof.
  split; [simpl; lia|]. split; [reflexivity|]. split; [reflexivity|].
  apply declaration_order_construction; [simpl; lia | reflexivity..].
Defined.

Lemma one_construction_per_field_witness :
  Z.of_nat (length example_arguments) < size_t_modulus
  /\ (arguments_range_found (marker "c") (atypes example_arguments) = false
      <-> forall a, In a example_arguments -> ~ names (marker "c") (atype a))
  /\ (arguments_range_found (marker "c") (atypes example_arguments) = false ->
      member_initializer (marker "c") 2 example_arguments
      = default_initializer (marker "c") 2 example_arguments
      /\ member_initializer (marker "c") 2 example_arguments
         = Some [mk_call in_default_initializer 2 []])
  /\ (arguments_range_found (marker "c") (atypes example_arguments) = true ->
      member_initializer (marker "c") 2 example_arguments
      = parametric_initializer (marker "c") 2 example_arguments
      /\ exists bundle,
          member_initializer (marker "c") 2 example_arguments
          = Some [mk_call in_back_step 2 bundle]).
Proof.
  split; [reflexivity|].
  apply one_construction_per_field; reflexivity.
Defined.

Lemma marker_alone_is_parametric_witness :
  Z.of_nat (length marker_only) < size_t_modulus
  /\ arguments_range_found (marker "a") (atypes marker_only) = true
  /\ (let next :=
        S (Z.to_nat (arguments_range_beg (marker "a") (atypes marker_only)))
      in
      nth_error marker_only next = None
      \/ exists a, nth_error marker_only next = Some a
                   /\ marker_slot (atype a))
  /\ arguments_range_end (marker "a") (atypes marker_only)
     = arguments_range_beg (marker "a") (atypes marker_only) + 1
  /\ member_initializer (marker "a") 0 marker_only
     = parametric_initializer (marker "a") 0 marker_only
  /\ member_initializer (marker "a") 0 marker_only
     = Some [mk_call in_back_step 0 []].
Proof.
  split; [reflexivity|]. split; [reflexivity|].
  split; [left; reflexivity|].
  apply marker_alone_is_parametric;
    [reflexivity | reflexivity | left; reflexivity].
Defined.

Lemma marker_twice_first :
  first_slot_from (names (marker "a")) 0 (atypes marker_twice) 0.
Proof.
  split; [intros k t Hk; lia|].
  left; split; [simpl; lia|]. exists (marker "a"); split; reflexivity.
Qed.

Lemma marker_twice_second :
  first_slot_from (names (marker "a")) 1 (atypes marker_twice) 2.
Proof.
  split.
  - intros k t Hk Ht Hn.
    destruct k as [|[|k]]; try lia.
    simpl in Ht; injection Ht as <-; discriminate Hn.
  - left; split; [simpl; lia|]. exists (marker "a"); split; reflexivity.
Qed.

Lemma duplicate_marker_first_wins_witness :
  Z.of_nat (length marker_twice) < size_t_modulus
  /\ marker_slot (marker "a")
  /\ first_slot_from (names (marker "a")) 0 (atypes marker_twice) 0
  /\ first_slot_from (names (marker "a")) 1 (atypes marker_twice) 2
  /\ (2 < length marker_twice)%nat
  /\ exists j : nat,
      arguments_range_found (marker "a") (atypes marker_twice) = true
      /\ arguments_range_beg (marker "a") (atypes marker_twice) = Z.of_nat 0
      /\ arguments_range_end (marker "a") (atypes marker_twice) = Z.of_nat j
      /\ (0 < j <= 2)%nat
      /\ first_slot_from marker_slot 1 (atypes marker_twice) j
      /\ (j = 2%nat <->
          forall k t, (0 < k < 2)%nat ->
                      nth_error (atypes marker_twice) k = Some t ->
                      ~ marker_slot t)
      /\ member_initializer (marker "a") 0 marker_twice
         = Some [mk_call in_back_step 0 (between 0 j marker_twice)].
Proof.
  split; [reflexivity|]. split; [reflexivity|].
  split; [exact marker_twice_first|]. split; [exact marker_twice_second|].
  split; [simpl; lia|].
  apply duplicate_marker_first_wins;
    [reflexivity | reflexivity | exact marker_twice_first
     | exact marker_twice_second | simpl; lia].
Defined.

Lemma slice_counts_well_formed_witness :
  Z.of_nat (length example_arguments) < size_t_modulus
  /\ (let range_beg :=
        arguments_range_beg (marker "b") (atypes example_arguments) in
      let range_end :=
        arguments_range_end (marker "b") (atypes example_arguments) in
      let L := Z.of_nat (length example_arguments) in
      0 <= range_beg <= range_end /\ range_end <= L
      /\ (arguments_range_found (marker "b") (atypes example_arguments)
          = true ->
          range_beg < range_end
          /\ size_t_add range_beg 1 = range_beg + 1
          /\ size_t_sub (size_t_sub range_end range_beg) 1
             = range_end - range_beg - 1
          /\ size_t_sub (sizeof (atypes example_arguments)) range_end
             = L - range_end
          /\ size_t_add range_beg 1
             + size_t_sub (size_t_sub range_end range_beg) 1
             + size_t_sub (sizeof (atypes example_arguments)) range_end = L)
      /\ exists c,
          member_initializer (marker "b") 1 example_arguments = Some [c]).
Proof.
  split; [reflexivity|].
  apply (slice_counts_well_formed (marker "b") 1%nat example_arguments).
  reflexivity.
Defined.

Lemma empty_object_no_op_witness :
  __ngc_member_count__ [] = 0
  /\ __ngc_initialize__ [] example_arguments
     = null_iterator [] example_arguments
  /\ __ngc_initialize__ [] example_arguments = Some [].
Proof.
  split; [reflexivity|].
  apply (empty_object_no_op [] example_arguments). reflexivity.
Defined.

Lemma example_requalified_same :
  Forall2 same_up_to_const_and_reference
    (atypes example_arguments) example_requalified.
Proof. repeat constructor. Qed.

Lemma scan_ignores_const_and_reference_witness :
  same_up_to_const_and_reference
    (marker "b") (mk_dtype (ngc_string "b") true false lvalue_reference)
  /\ Forall2 same_up_to_const_and_reference
       (atypes example_arguments) example_requalified
  /\ (forall a b, iterator_match a b = is_same (clean a) (clean b))
  /\ (forall a b, iterator_match a b = true <-> clean a = clean b)
  /\ (forall x y c c' r r',
         iterator_match (mk_dtype (ngc_string x) c false r)
                        (mk_dtype (ngc_string y) c' false r') = true
         <-> x = y)
  /\ arguments_range_found (marker "b") (atypes example_arguments)
     = arguments_range_found
         (mk_dtype (ngc_string "b") true false lvalue_reference)
         example_requalified
  /\ arguments_range_beg (marker "b") (atypes example_arguments)
     = arguments_range_beg
         (mk_dtype (ngc_string "b") true false lvalue_reference)
         example_requalified
  /\ arguments_range_end (marker "b") (atypes example_arguments)
     = arguments_range_end
         (mk_dtype (ngc_string "b") true false lvalue_reference)
         example_requalified.
Proof.
  split; [split; reflexivity|].
  split; [exact example_requalified_same|].
  apply scan_ignores_const_and_reference;
    [split; reflexivity | exact example_requalified_same].
Defined.

(** What [example_volatile] comes down to: the volatile string is passed. *)
Example example_volatile_calls :
  __ngc_initialize__ [marker "a"] example_volatile
  = Some [mk_call in_back_step 0 (skipn 1 example_volatile)].
Proof. reflexivity. Qed.


(** * More on the slicer *)

Section SlicerAlone.

Context {value : Type}.
Implicit Types (arguments : list (argument value)) (member : nat).

(** X1.  Whatever the three runs are, [front_step] instantiated with
    their lengths passes the middle one and nothing else. *)
Theorem front_step_keeps_the_middle (ahead kept behind : list (argument value))
        member :
  front_step (length ahead) (length kept) (length behind) member
    (ahead ++ kept ++ behind)
  = Some [mk_call in_back_step member kept].
Proof.
  rewrite front_step_drops by (rewrite length_app; lia).
  rewrite skipn_app, skipn_all, Nat.sub_diag. cbn [skipn app].
  rewrite rotate_step_rotates by (rewrite length_app; lia).
  rewrite skipn_app, firstn_app, skipn_all, firstn_all, Nat.sub_diag.
  cbn [skipn firstn app]. rewrite app_nil_r.
  rewrite back_step_drops by (rewrite length_app; lia).
  rewrite skipn_app, skipn_all, Nat.sub_diag. reflexivity.
Qed.

Lemma rotate_left_length {A : Type} (k : nat) (l : list A) :
  length (rotate_left k l) = length l.
Proof.
  unfold rotate_left. rewrite length_app, length_skipn, length_firstn. lia.
Qed.

Lemma rotate_left_next {A : Type} (k : nat) (x : A) (l : list A) :
  (k <= length l)%nat ->
  rotate_left k (l ++ [x]) = rotate_left (S k mod S (length l)) (x :: l).
Proof.
  intros Hk. unfold rotate_left.
  destruct (Nat.eq_dec k (length l)) as [-> | Hne].
  - rewrite Nat.Div0.mod_same. cbn [skipn firstn app].
    rewrite skipn_app, firstn_app, skipn_all, firstn_all, Nat.sub_diag.
    cbn [skipn firstn]. rewrite app_nil_r. reflexivity.
  - rewrite Nat.mod_small by lia.
    rewrite skipn_app, firstn_app.
    replace (k - length l)%nat with O by lia.
    cbn [skipn firstn]. rewrite app_nil_r, <- app_assoc. reflexivity.
Qed.

Lemma succ_mod (r n : nat) :
  n <> O -> (S (r mod n) mod n = S r mod n)%nat.
Proof.
  intros Hn. change (S (r mod n)) with (1 + r mod n)%nat.
  change (S r) with (1 + r)%nat.
  rewrite Nat.Div0.add_mod_idemp_r. reflexivity.
Qed.

Lemma rotate_step_modulo (rotate back : nat) member arguments :
  arguments <> [] ->
  rotate_step rotate back member arguments
  = back_step back member
      (rotate_left (rotate mod length arguments) arguments).
Proof.
  revert arguments; induction rotate as [|rotate IH]; intros arguments Hne.
  - rewrite Nat.Div0.mod_0_l. unfold rotate_left; simpl.
    rewrite app_nil_r; reflexivity.
  - destruct arguments as [|a arguments]; [contradiction|].
    cbn [rotate_step].
    rewrite IH by (destruct arguments; discriminate).
    rewrite length_app; cbn [length]. rewrite Nat.add_1_r.
    rewrite rotate_left_next.
    + rewrite succ_mod by discriminate. reflexivity.
    + pose proof (Nat.mod_upper_bound rotate (S (length arguments))). lia.
Qed.

(** X2.  On a pack that is not empty [rotate_step] is never short of
    arguments, however large its count: it hands [back_step] the pack
    rotated by the count modulo the number of arguments, which has as
    many arguments as the pack. *)
Theorem rotate_step_wraps_around (rotate back : nat) member arguments :
  arguments <> [] ->
  rotate_step rotate back member arguments
  = back_step back member
      (rotate_left (rotate mod length arguments) arguments)
  /\ length (rotate_left (rotate mod length arguments) arguments)
     = length arguments.
Proof.
  intros Hne. split; [apply rotate_step_modulo; exact Hne|].
  apply rotate_left_length.
Qed.

(** X3.  When the slicer is ill-formed: [front_step] has no viable
    overload exactly when it must drop more slots than the pack has, or
    rotate an empty rest, or drop at the back more than the rest has. *)
Theorem front_step_ill_formed_iff (front rotate back : nat) member arguments :
  front_step front rotate back member arguments = None
  <-> (length arguments < front)%nat
      \/ (length arguments = front /\ 0 < rotate)%nat
      \/ (length arguments - front < back)%nat.
Proof.
  destruct (Nat.lt_ge_cases (length arguments) front) as [Hlt | Hge].
  - rewrite front_step_short by exact Hlt. split; auto.
  - rewrite front_step_drops by exact Hge.
    pose proof (length_skipn front arguments) as Hrest.
    destruct (skipn front arguments) as [|a rest] eqn:Hskip.
    + simpl in Hrest. destruct rotate as [|rotate]; cbn [rotate_step].
      * destruct back as [|back]; cbn [back_step].
        -- split; [discriminate | lia].
        -- split; [intros _; right; right; lia | reflexivity].
      * split; [intros _; right; left; lia | reflexivity].
    + rewrite rotate_step_modulo by discriminate.
      set (rotated := rotate_left _ _).
      assert (Hlen : length rotated = (length arguments - front)%nat)
        by (unfold rotated; rewrite rotate_left_length; exact Hrest).
      destruct (Nat.lt_ge_cases (length rotated) back) as [Hb | Hb].
      * rewrite back_step_short by exact Hb. split; [intros _|reflexivity].
        right; right; lia.
      * rewrite back_step_drops by exact Hb. simpl in Hrest.
        split; [discriminate | lia].
Qed.

End SlicerAlone.

(** * More on one field *)

Section FieldAlone.

Context {value : Type}.
Implicit Types (arguments : list (argument value)) (member : nat).

(** X4.  [parametric_initializer] is well-formed exactly when the name
    is found among the arguments: without the name, [front_step] is asked
    to drop one slot more than there are.  That is what the choice made
    by [member_initializer] guards against. *)
Theorem parametric_initializer_needs_the_name (name : dtype) member arguments :
  Z.of_nat (length arguments) + 1 < size_t_modulus ->
  (parametric_initializer name member arguments = None
   <-> arguments_range_found name (atypes arguments) = false).
Proof.
  intros Hlen.
  destruct (arguments_range_found name (atypes arguments)) eqn:Hfound.
  - rewrite parametric_initializer_between by (auto; lia).
    split; discriminate.
  - rewrite parametric_initializer_not_found by assumption.
    split; reflexivity.
Qed.

Lemma position_here {A : Type} (test : A -> bool) (l r : list A) (x : A) :
  existsb test l = false -> test x = true ->
  position test (l ++ x :: r) = length l.
Proof.
  intros Hl Hx. rewrite position_app, Hl. cbn [position]. rewrite Hx. lia.
Qed.

Lemma no_name_existsb (name : dtype) arguments :
  (forall a, In a arguments -> ~ names name (atype a)) ->
  existsb (iterator_match name) (atypes arguments) = false.
Proof.
  intros Habs. rewrite <- arguments_range_found_existsb.
  apply not_found_iff_absent; exact Habs.
Qed.

Lemma no_marker_existsb arguments :
  (forall a, In a arguments -> ~ marker_slot (atype a)) ->
  existsb is_marker (atypes arguments) = false.
Proof.
  intros Habs.
  destruct (existsb is_marker (atypes arguments)) eqn:He; [|reflexivity].
  apply existsb_exists in He as [t [Hin Ht]].
  unfold atypes in Hin; apply in_map_iff in Hin as [a [<- Hin]].
  exfalso; exact (Habs a Hin Ht).
Qed.

(** X5.  Keyword style: when the sequence reads [pre], then a slot naming
    the field, then [values], then [post], with no slot of [pre] naming
    the field, no marker among [values], and [post] empty or starting
    with a marker, the field is constructed from [values] exactly. *)
Theorem bundle_is_the_run_after_the_name (name : dtype) member
        (pre values post : list (argument value)) (m : argument value) :
  Z.of_nat (length (pre ++ m :: values ++ post)) < size_t_modulus ->
  names name (atype m) ->
  (forall a, In a pre -> ~ names name (atype a)) ->
  (forall a, In a values -> ~ marker_slot (atype a)) ->
  (post = [] \/ exists p post', post = p :: post' /\ marker_slot (atype p)) ->
  member_initializer name member (pre ++ m :: values ++ post)
  = Some [mk_call in_back_step member values].
Proof.
  intros Hlen Hm Hpre Hvalues Hpost.
  assert (Hmatch : iterator_match name (atype m) = true)
    by (apply iterator_match_eq; symmetry; exact Hm).
  assert (Htypes : atypes (pre ++ m :: values ++ post)
                   = atypes pre ++ atype m :: atypes values ++ atypes post)
    by (unfold atypes; rewrite map_app; cbn [map]; rewrite map_app;
        reflexivity).
  assert (Hfound : existsb (iterator_match name)
                     (atypes (pre ++ m :: values ++ post)) = true).
  { rewrite Htypes, existsb_app. cbn [existsb]. rewrite Hmatch.
    apply orb_true_r. }
  assert (Hi : first_occurrence name (atypes (pre ++ m :: values ++ post))
               = length pre).
  { unfold first_occurrence. rewrite Htypes.
    rewrite position_here by (auto using no_name_existsb).
    unfold atypes; apply length_map. }
  assert (Hafter : after_needle name (atypes (pre ++ m :: values ++ post))
                   = atypes values ++ atypes post).
  { unfold after_needle. rewrite Hi, Htypes.
    rewrite skipn_app, skipn_all2
      by (unfold atypes; rewrite length_map; lia).
    unfold atypes at 1; rewrite length_map.
    replace (S (length pre) - length pre)%nat with 1%nat by lia.
    reflexivity. }
  assert (Hj : next_string name (atypes (pre ++ m :: values ++ post))
               = (S (length pre) + length values)%nat).
  { unfold next_string. rewrite Hfound, Hi, Hafter. f_equal.
    rewrite position_app, (no_marker_existsb _ Hvalues).
    unfold atypes at 1; rewrite length_map.
    destruct Hpost as [-> | [p [post' [-> Hp]]]]; cbn [atypes map position].
    - lia.
    - change (is_marker (atype p)) with (is_string (clean (atype p))).
      rewrite Hp. lia. }
  rewrite member_initializer_field_call by exact Hlen.
  unfold field_call. rewrite arguments_range_found_existsb, Hfound, Hi, Hj.
  do 3 f_equal. unfold between.
  replace (skipn (S (length pre)) (pre ++ m :: values ++ post))
    with (values ++ post).
  - replace (S (length pre) + length values - length pre - 1)%nat
      with (length values) by lia.
    rewrite firstn_app, firstn_all, Nat.sub_diag. cbn [firstn].
    apply app_nil_r.
  - rewrite skipn_app, skipn_all2 by lia.
    replace (S (length pre) - length pre)%nat with 1%nat by lia.
    reflexivity.
Qed.

End FieldAlone.

(** * Several fields, one sequence *)

(** X6.  The bundles of two found fields with different marker names do
    not overlap: one range ends where, or before, the other starts. *)
Theorem distinct_names_disjoint_ranges (a b : dtype) (haystack : list dtype) :
  Z.of_nat (length haystack) < size_t_modulus ->
  marker_slot a -> marker_slot b ->
  clean a <> clean b ->
  arguments_range_found a haystack = true ->
  arguments_range_found b haystack = true ->
  arguments_range_end a haystack <= arguments_range_beg b haystack
  \/ arguments_range_end b haystack <= arguments_range_beg a haystack.
Proof.
  intros Hlen Ha Hb Hab Hfa Hfb.
  rewrite arguments_range_found_existsb in Hfa, Hfb.
  rewrite !arguments_range_beg_position, !arguments_range_end_position
    by exact Hlen.
  destruct (first_occurrence_at a haystack) as [ta [Hta Hna]];
    [apply position_some; exact Hfa|].
  destruct (first_occurrence_at b haystack) as [tb [Htb Hnb]];
    [apply position_some; exact Hfb|].
  destruct (Nat.lt_trichotomy (first_occurrence a haystack)
                              (first_occurrence b haystack))
    as [Hlt | [Heq | Hgt]].
  - left. apply inj_le.
    apply (next_string_first a haystack _ tb Hlt Htb).
    apply (names_marker b); assumption.
  - exfalso. rewrite Heq in Hta. apply Hab. congruence.
  - right. apply inj_le.
    apply (next_string_first b haystack _ ta Hgt Hta).
    apply (names_marker a); assumption.
Qed.

(** X7.  What comes before the first marker slot of the sequence belongs
    to no field: for every marker name, [beg] lies beyond it. *)
Theorem before_the_first_marker (name : dtype) (haystack : list dtype) (k : nat) :
  Z.of_nat (length haystack) < size_t_modulus ->
  marker_slot name ->
  (k < length haystack)%nat ->
  (forall k' t, (k' <= k)%nat -> nth_error haystack k' = Some t ->
                ~ marker_slot t) ->
  Z.of_nat k < arguments_range_beg name haystack.
Proof.
  intros Hlen Hname Hk Hnone.
  rewrite arguments_range_beg_position by exact Hlen.
  apply inj_lt.
  pose proof (position_le (iterator_match name) haystack) as Hle.
  fold (first_occurrence name haystack) in Hle.
  destruct (Nat.lt_ge_cases k (first_occurrence name haystack))
    as [|Hge]; [assumption|].
  destruct (first_occurrence_at name haystack) as [t [Ht Hn]]; [lia|].
  exfalso. apply (Hnone _ t Hge Ht).
  apply (names_marker name); assumption.
Qed.

Section SeveralFields.

Context {value : Type}.
Implicit Types (arguments : list (argument value)) (type : list dtype).

Lemma declaration_order_default type (first : nat) arguments :
  (forall name a, In name type -> In a arguments -> ~ names name (atype a)) ->
  declaration_order type first arguments
  = map (fun member => mk_call in_default_initializer member [])
        (seq first (length type)).
Proof.
  revert first; induction type as [|name type IH]; intros first Habs.
  - reflexivity.
  - cbn [declaration_order length seq map]. f_equal.
    + unfold field_call.
      replace (arguments_range_found name (atypes arguments)) with false;
        [reflexivity|].
      symmetry; apply not_found_iff_absent.
      intros a Ha; apply (Habs name a); [left; reflexivity | exact Ha].
    + apply IH. intros n a Hn Ha; apply (Habs n a); [right|]; assumption.
Qed.

(** X8.  When no slot of the sequence names a member of the type, and so
    when the sequence is empty, every member is default-constructed, in
    declaration order, and nothing is passed to any of them. *)
Theorem no_name_all_default type arguments :
  Z.of_nat (length type) < size_t_modulus ->
  Z.of_nat (length arguments) < size_t_modulus ->
  (forall name a, In name type -> In a arguments -> ~ names name (atype a)) ->
  __ngc_initialize__ type arguments = Some (default_calls (length type))
  /\ __ngc_initialize__ type (@nil (argument value))
     = Some (default_calls (length type)).
Proof.
  intros Htype Hlen Habs. split.
  - rewrite __ngc_initialize___declaration_order by assumption.
    rewrite declaration_order_default by exact Habs. reflexivity.
  - rewrite __ngc_initialize___declaration_order
      by (auto; simpl; unfold size_t_modulus; lia).
    rewrite declaration_order_default by (intros n a _ []). reflexivity.
Qed.

(** X9.  Declaring one more member at the end of a type adds the call for
    that member after the calls for the others, which stay as they were. *)
Theorem one_more_member type (name : dtype) arguments :
  Z.of_nat (length type) + 1 < size_t_modulus ->
  Z.of_nat (length arguments) < size_t_modulus ->
  __ngc_initialize__ (type ++ [name]) arguments
  = and_then (__ngc_initialize__ type arguments)
             (member_initializer name (length type) arguments).
Proof.
  intros Htype Hlen.
  rewrite !__ngc_initialize___declaration_order
    by (try rewrite length_app; simpl; lia).
  rewrite declaration_order_app, member_initializer_field_call by exact Hlen.
  reflexivity.
Qed.

(** X10.  [member_iterator <index>] on a type with more than [index]
    members is the whole initialisation of the type cut after the member
    at [index]; with [index] beyond the last member it is ill-formed. *)
Theorem member_iterator_is_a_prefix type (index : nat) arguments :
  Z.of_nat (length type) < size_t_modulus ->
  Z.of_nat (length arguments) < size_t_modulus ->
  ((index < length type)%nat ->
   member_iterator type index arguments
   = __ngc_initialize__ (firstn (S index) type) arguments)
  /\ ((length type <= index)%nat ->
      member_iterator type index arguments = None).
Proof.
  intros Htype Hlen. split.
  - intros Hlt.
    rewrite member_iterator_declaration_order by assumption.
    rewrite __ngc_initialize___declaration_order; [reflexivity| |exact Hlen].
    rewrite length_firstn. lia.
  - intros Hge.
    assert (Hnone : initialize_member type index arguments = None).
    { unfold initialize_member, __ngc_member__.
      replace (nth_error type index) with (@None dtype); [reflexivity|].
      symmetry; apply nth_error_None; exact Hge. }
    destruct index as [|index]; cbn [member_iterator].
    + exact Hnone.
    + rewrite Hnone.
      destruct (member_iterator type index arguments); reflexivity.
Qed.

End SeveralFields.

(** * More on the scanner *)

Lemma position_found {A : Type} (test : A -> bool) (l : list A) :
  (position test l < length l)%nat -> existsb test l = true.
Proof.
  intros Hlt. destruct (existsb test l) eqn:He; [reflexivity|].
  rewrite (position_none _ _ He) in Hlt. lia.
Qed.

Lemma next_string_completed (needle : dtype) (h : list dtype) :
  (next_string needle h < length h)%nat <->
  arguments_range_completed needle h = true.
Proof.
  rewrite arguments_range_completed_existsb. unfold next_string.
  destruct (existsb (iterator_match needle) h) eqn:Hf; cbn [andb].
  - pose proof (after_needle_length _ _ Hf) as Hlen. split.
    + intros Hlt. apply position_found. lia.
    + intros He. pose proof (position_some _ _ He). lia.
  - split; [lia | discriminate].
Qed.

Lemma scan_of_extension (needle : dtype) (h extra : list dtype) :
  (next_string needle h < length h)%nat ->
  first_occurrence needle (h ++ extra) = first_occurrence needle h
  /\ next_string needle (h ++ extra) = next_string needle h.
Proof.
  intros Hlt. pose proof Hlt as Hc. apply next_string_completed in Hc.
  rewrite arguments_range_completed_existsb in Hc.
  apply andb_true_iff in Hc as [Hf Hm].
  pose proof (position_some _ _ Hf) as Hi.
  assert (Hsame : first_occurrence needle (h ++ extra)
                  = first_occurrence needle h).
  { unfold first_occurrence. rewrite position_app, Hf. reflexivity. }
  split; [exact Hsame|].
  unfold next_string. rewrite existsb_app, Hf. cbn [orb].
  unfold after_needle. rewrite Hsame, skipn_app.
  fold (after_needle needle h).
  rewrite position_app, Hm. reflexivity.
Qed.

(** X11.  Once the bundle of a field is closed by a marker, what is
    appended to the sequence is of no consequence to that field: [beg],
    [end] and the call made for the field stay the same. *)
Theorem what_follows_the_end_is_ignored {value : Type} (name : dtype)
        (member : nat) (arguments extra : list (argument value)) :
  Z.of_nat (length (arguments ++ extra)) < size_t_modulus ->
  arguments_range_end name (atypes arguments) < Z.of_nat (length arguments) ->
  arguments_range_beg name (atypes (arguments ++ extra))
  = arguments_range_beg name (atypes arguments)
  /\ arguments_range_end name (atypes (arguments ++ extra))
     = arguments_range_end name (atypes arguments)
  /\ member_initializer name member (arguments ++ extra)
     = member_initializer name member arguments.
Proof.
  intros Hlen Hend. rewrite length_app in Hlen.
  assert (Hmap : forall l : list (argument value),
             length (atypes l) = length l)
    by (intros l; unfold atypes; apply length_map).
  assert (Happ : atypes (arguments ++ extra)
                 = atypes arguments ++ atypes extra)
    by (unfold atypes; apply map_app).
  rewrite arguments_range_end_position in Hend by (rewrite Hmap; lia).
  assert (Hlt : (next_string name (atypes arguments)
                 < length (atypes arguments))%nat) by (rewrite Hmap; lia).
  destruct (scan_of_extension name _ (atypes extra) Hlt) as [Hi Hj].
  rewrite !arguments_range_beg_position, !arguments_range_end_position
    by (rewrite ?Happ, ?length_app, !Hmap; lia).
  rewrite Happ, Hi, Hj.
  split; [reflexivity|]. split; [reflexivity|].
  rewrite !member_initializer_field_call by (rewrite ?length_app; lia).
  unfold field_call. rewrite Happ, Hi, Hj.
  rewrite !arguments_range_found_existsb, existsb_app.
  pose proof Hlt as Hc. apply next_string_completed in Hc.
  rewrite arguments_range_completed_existsb in Hc.
  apply andb_true_iff in Hc as [Hf _]. rewrite Hf. cbn [orb].
  do 3 f_equal. unfold between.
  rewrite skipn_app, firstn_app.
  pose proof (next_string_after _ _ Hf) as Hafter.
  rewrite Hmap in Hlt.
  replace (next_string name (atypes arguments)
           - first_occurrence name (atypes arguments) - 1
           - length (skipn (S (first_occurrence name (atypes arguments)))
                       arguments))%nat with O
    by (rewrite length_skipn; lia).
  cbn [firstn]. apply app_nil_r.
Qed.

(** X12.  The two flags can be read off the two positions: the needle is
    found iff [beg] is a position of the pack, and the search is
    completed iff [end] is one; when the needle is not found both are the
    number of entries of the pack. *)
Theorem flags_and_positions (needle : dtype) (haystack : list dtype) :
  Z.of_nat (length haystack) < size_t_modulus ->
  (arguments_range_found needle haystack = true
   <-> arguments_range_beg needle haystack < Z.of_nat (length haystack))
  /\ (iterator_completed needle (__ngc_reverse_parameter_pack__ haystack)
      = true
      <-> arguments_range_end needle haystack < Z.of_nat (length haystack))
  /\ (arguments_range_found needle haystack = false ->
      arguments_range_beg needle haystack = Z.of_nat (length haystack)
      /\ arguments_range_end needle haystack = Z.of_nat (length haystack)).
Proof.
  intros Hlen.
  rewrite arguments_range_beg_position, arguments_range_end_position
    by exact Hlen.
  rewrite arguments_range_found_existsb.
  fold (arguments_range_completed needle haystack).
  split; [|split].
  - split.
    + intros Hf. apply inj_lt. apply position_some; exact Hf.
    + intros Hlt. apply position_found. unfold first_occurrence in Hlt. lia.
  - rewrite <- next_string_completed. lia.
  - intros Hf. destruct (next_string_none _ _ Hf) as [-> ->]. auto.
Qed.

(** X13.  Whether the needle is found does not depend on the order of the
    pack; in particular [iterator :: string], which asks
    [arguments_range] about a pack that is already reversed, gets the
    answer of the iterator on that pack. *)
Theorem found_whatever_the_order (needle : dtype) (haystack haystack' : list dtype) :
  Permutation haystack haystack' ->
  arguments_range_found needle haystack
  = arguments_range_found needle haystack'
  /\ (forall ftype ftypes,
         iterator_string needle ftype ftypes
         = is_string (clean ftype) && iterator_found needle ftypes).
Proof.
  intros Hperm. split.
  - rewrite !arguments_range_found_existsb.
    induction Hperm as [|x l l' _ IH|x y l|l l' l'' _ IH1 _ IH2]; simpl.
    + reflexivity.
    + rewrite IH; reflexivity.
    + destruct (iterator_match needle x), (iterator_match needle y);
        reflexivity.
    + congruence.
  - intros ftype ftypes. unfold iterator_string.
    rewrite arguments_range_found_existsb, iterator_found_existsb.
    reflexivity.
Qed.

(** X14.  A slot is a marker for the scanner whatever its const and
    reference qualification, and only then: its type, once cleaned, is
    an [ngc :: string] iff it refers to an [ngc :: string] and is not
    volatile; uncleaned, only the plain [ngc :: string] types pass
    [is_string]. *)
Theorem marker_whatever_const_and_reference (t : dtype) :
  (is_string (clean t) = true
   <-> exists chars, referred t = ngc_string chars /\ is_volatile t = false)
  /\ (is_string t = true <-> exists chars, t = plain (ngc_string chars)).
Proof.
  split; [apply is_string_clean|].
  destruct t as [[chars|name] [|] [|] [| |]]; simpl; split;
    try discriminate; try (intros [x H]; discriminate H).
  - intros _; exists chars; reflexivity.
  - reflexivity.
Qed.

(** * The further theorems at work on the examples *)

Lemma rotate_step_wraps_around_witness :
  marker_twice <> []
  /\ rotate_step 7 1 0 marker_twice
     = back_step 1 0 (rotate_left (7 mod length marker_twice) marker_twice)
  /\ length (rotate_left (7 mod length marker_twice) marker_twice)
     = length marker_twice.
Proof.
  split; [discriminate|].
  apply rotate_step_wraps_around. discriminate.
Defined.

Lemma parametric_initializer_needs_the_name_witness :
  Z.of_nat (length example_arguments) + 1 < size_t_modulus
  /\ (parametric_initializer (marker "c") 2 example_arguments = None
      <-> arguments_range_found (marker "c") (atypes example_arguments)
          = false).
Proof.
  split; [reflexivity|].
  apply parametric_initializer_needs_the_name. reflexivity.
Defined.

Lemma bundle_is_the_run_after_the_name_witness :
  Z.of_nat (length ([mk_argument int 9%nat]
                    ++ mk_argument (marker "b") 3%nat
                       :: [mk_argument double 4%nat]
                          ++ [mk_argument (marker "a") 0%nat]))
  < size_t_modulus
  /\ names (marker "b") (atype (mk_argument (marker "b") 3%nat))
  /\ (forall a, In a [mk_argument int 9%nat] ->
                ~ names (marker "b") (atype a))
  /\ (forall a, In a [mk_argument double 4%nat] -> ~ marker_slot (atype a))
  /\ ([mk_argument (marker "a") 0%nat] = []
      \/ exists p post',
        [mk_argument (marker "a") 0%nat] = p :: post'
        /\ marker_slot (atype p))
  /\ member_initializer (marker "b") 1
       ([mk_argument int 9%nat]
        ++ mk_argument (marker "b") 3%nat
           :: [mk_argument double 4%nat]
              ++ [mk_argument (marker "a") 0%nat])
     = Some [mk_call in_back_step 1 [mk_argument double 4%nat]].
Proof.
  assert (Hpre : forall a, In a [mk_argument int 9%nat] ->
                           ~ names (marker "b") (atype a))
    by (intros a [<- | []]; discriminate).
  assert (Hvalues : forall a, In a [mk_argument double 4%nat] ->
                              ~ marker_slot (atype a))
    by (intros a [<- | []]; discriminate).
  assert (Hpost : [mk_argument (marker "a") 0%nat] = []
                  \/ exists p post',
                    [mk_argument (marker "a") 0%nat] = p :: post'
                    /\ marker_slot (atype p))
    by (right; eexists; eexists; split; reflexivity).
  split; [reflexivity|]. split; [reflexivity|].
  split; [exact Hpre|]. split; [exact Hvalues|]. split; [exact Hpost|].
  apply bundle_is_the_run_after_the_name;
    [reflexivity | reflexivity | exact Hpre | exact Hvalues | exact Hpost].
Defined.

Lemma distinct_names_disjoint_ranges_witness :
  Z.of_nat (length (atypes example_arguments)) < size_t_modulus
  /\ marker_slot (marker "a") /\ marker_slot (marker "b")
  /\ clean (marker "a") <> clean (marker "b")
  /\ arguments_range_found (marker "a") (atypes example_arguments) = true
  /\ arguments_range_found (marker "b") (atypes example_arguments) = true
  /\ (arguments_range_end (marker "a") (atypes example_arguments)
      <= arguments_range_beg (marker "b") (atypes example_arguments)
      \/ arguments_range_end (marker "b") (atypes example_arguments)
         <= arguments_range_beg (marker "a") (atypes example_arguments)).
Proof.
  split; [reflexivity|]. split; [reflexivity|]. split; [reflexivity|].
  split; [discriminate|]. split; [reflexivity|]. split; [reflexivity|].
  apply distinct_names_disjoint_ranges;
    [reflexivity | reflexivity | reflexivity | discriminate
     | reflexivity | reflexivity].
Defined.

Lemma no_marker_at_the_head :
  forall k' t, (k' <= 0)%nat ->
               nth_error [int; marker "a"; double] k' = Some t ->
               ~ marker_slot t.
Proof.
  intros k' t Hk Ht. destruct k' as [|k']; [|lia].
  simpl in Ht; injection Ht as <-. discriminate.
Qed.

Lemma before_the_first_marker_witness :
  Z.of_nat (length [int; marker "a"; double]) < size_t_modulus
  /\ marker_slot (marker "a")
  /\ (0 < length [int; marker "a"; double])%nat
  /\ (forall k' t, (k' <= 0)%nat ->
                   nth_error [int; marker "a"; double] k' = Some t ->
                   ~ marker_slot t)
  /\ Z.of_nat 0 < arguments_range_beg (marker "a") [int; marker "a"; double].
Proof.
  split; [reflexivity|]. split; [reflexivity|]. split; [simpl; lia|].
  split; [exact no_marker_at_the_head|].
  apply before_the_first_marker;
    [reflexivity | reflexivity | simpl; lia | exact no_marker_at_the_head].
Defined.

Lemma example_names_absent :
  forall name a,
    In name example_type -> In a [mk_argument int 1%nat] ->
    ~ names name (atype a).
Proof.
  intros name a [<- | [<- | []]] [<- | []]; discriminate.
Qed.

Lemma no_name_all_default_witness :
  Z.of_nat (length example_type) < size_t_modulus
  /\ Z.of_nat (length [mk_argument int 1%nat]) < size_t_modulus
  /\ (forall name a,
         In name example_type -> In a [mk_argument int 1%nat] ->
         ~ names name (atype a))
  /\ __ngc_initialize__ example_type [mk_argument int 1%nat]
     = Some (default_calls (length example_type))
  /\ __ngc_initialize__ example_type (@nil (argument nat))
     = Some (default_calls (length example_type)).
Proof.
  split; [reflexivity|]. split; [reflexivity|].
  split; [exact example_names_absent|].
  apply no_name_all_default;
    [reflexivity | reflexivity | exact example_names_absent].
Defined.

Lemma one_more_member_witness :
  Z.of_nat (length example_type) + 1 < size_t_modulus
  /\ Z.of_nat (length example_arguments) < size_t_modulus
  /\ __ngc_initialize__ (example_type ++ [marker "c"]) example_arguments
     = and_then (__ngc_initialize__ example_type example_arguments)
         (member_initializer (marker "c") (length example_type)
            example_arguments).
Proof.
  split; [reflexivity|]. split; [reflexivity|].
  apply one_more_member; reflexivity.
Defined.

Lemma member_iterator_is_a_prefix_witness :
  Z.of_nat (length example_type) < size_t_modulus
  /\ Z.of_nat (length example_arguments) < size_t_modulus
  /\ ((0 < length example_type)%nat ->
      member_iterator example_type 0 example_arguments
      = __ngc_initialize__ (firstn 1 example_type) example_arguments)
  /\ ((length example_type <= 0)%nat ->
      member_iterator example_type 0 example_arguments = None).
Proof.
  split; [reflexivity|]. split; [reflexivity|].
  apply (member_iterator_is_a_prefix example_type 0 example_arguments);
    reflexivity.
Defined.

Lemma what_follows_the_end_is_ignored_witness :
  Z.of_nat (length (example_arguments ++ marker_twice)) < size_t_modulus
  /\ arguments_range_end (marker "a") (atypes example_arguments)
     < Z.of_nat (length example_arguments)
  /\ arguments_range_beg (marker "a")
       (atypes (example_arguments ++ marker_twice))
     = arguments_range_beg (marker "a") (atypes example_arguments)
  /\ arguments_range_end (marker "a")
       (atypes (example_arguments ++ marker_twice))
     = arguments_range_end (marker "a") (atypes example_arguments)
  /\ member_initializer (marker "a") 0 (example_arguments ++ marker_twice)
     = member_initializer (marker "a") 0 example_arguments.
Proof.
  split; [reflexivity|]. split; [reflexivity|].
  apply what_follows_the_end_is_ignored; reflexivity.
Defined.

Lemma flags_and_positions_witness :
  Z.of_nat (length (atypes example_arguments)) < size_t_modulus
  /\ (arguments_range_found (marker "b") (atypes example_arguments) = true
      <-> arguments_range_beg (marker "b") (atypes example_arguments)
          < Z.of_nat (length (atypes example_arguments)))
  /\ (iterator_completed (marker "b")
        (__ngc_reverse_parameter_pack__ (atypes example_arguments)) = true
      <-> arguments_range_end (marker "b") (atypes example_arguments)
          < Z.of_nat (length (atypes example_arguments)))
  /\ (arguments_range_found (marker "b") (atypes example_arguments) = false ->
      arguments_range_beg (marker "b") (atypes example_arguments)
      = Z.of_nat (length (atypes example_arguments))
      /\ arguments_range_end (marker "b") (atypes example_arguments)
         = Z.of_nat (length (atypes example_arguments))).
Proof.
  split; [reflexivity|].
  apply flags_and_positions. reflexivity.
Defined.

Lemma found_whatever_the_order_witness :
  Permutation [int; marker "a"] [marker "a"; int]
  /\ arguments_range_found (marker "a") [int; marker "a"]
     = arguments_range_found (marker "a") [marker "a"; int]
  /\ (forall ftype ftypes,
         iterator_string (marker "a") ftype ftypes
         = is_string (clean ftype) && iterator_found (marker "a") ftypes).
Proof.
  split; [apply perm_swap|].
  apply found_whatever_the_order. apply perm_swap.
Defined.
